(** * Canvas editing engine of my-draw: a shallow embedding

    Source: [src/src/store/CanvasProvider.tsx] (document state, reducer and
    provider operations), [src/src/types/canvas.ts] together with its later
    revision that adds [GroupElement], and [src/src/components/canvas/PixiCanvas.tsx]
    (resize and marquee selection).

    JavaScript numbers are modelled as exact rationals [Q]; values produced by
    [structuredClone] are modelled as the values themselves (a deep copy of plain
    data is structurally equal and shares nothing, and the model has no sharing). *)

From Stdlib Require Import List String Ascii QArith Qminmax Qabs ZArith Arith Lia Bool Lqa.
From Stdlib Require Import DecimalString DecimalN.
Import ListNotations.

Set Warnings "-register-all".

(** ** Data model ([types/canvas.ts]) *)

Inductive ShapeVariant := rectangle | circle | triangle.

(** ["select" | "pan"] *)
Inductive InteractionMode := mode_select | mode_pan.

Inductive TextAlign := align_left | align_center | align_right.

Record ImageFilters := mkFilters {
  grayscale : bool;
  blur : Q;
  brightness : Q
}.

Record ElementBase := mkBase {
  id : string;
  name : string;
  x : Q;
  y : Q;
  width : Q;
  height : Q;
  rotation : Q;
  opacity : Q;
  locked : option bool
}.

(** [CanvasElement = ShapeElement | TextElement | ImageElement | GroupElement];
    the [type] tag is the constructor, the [ElementBase] fields are shared. *)
Inductive CanvasElement :=
| ShapeElement (b : ElementBase) (shape : ShapeVariant) (fill stroke : string)
    (strokeWidth cornerRadius : Q)
| TextElement (b : ElementBase) (text : string) (fontSize : Q) (fontFamily : string)
    (fontWeight : Q) (align : TextAlign) (color background : string) (lineHeight : Q)
| ImageElement (b : ElementBase) (src : string) (filters : ImageFilters) (borderRadius : Q)
| GroupElement (b : ElementBase) (children : list CanvasElement).

Definition base_of (e : CanvasElement) : ElementBase :=
  match e with
  | ShapeElement b _ _ _ _ _ | TextElement b _ _ _ _ _ _ _ _
  | ImageElement b _ _ _ | GroupElement b _ => b
  end.

(** [{ ...el, <base fields> }]: replace the shared fields, keep the variant's own. *)
Definition with_base (e : CanvasElement) (b : ElementBase) : CanvasElement :=
  match e with
  | ShapeElement _ s f st sw cr => ShapeElement b s f st sw cr
  | TextElement _ t fs ff fw al c bg lh => TextElement b t fs ff fw al c bg lh
  | ImageElement _ s fl br => ImageElement b s fl br
  | GroupElement _ ch => GroupElement b ch
  end.

Definition el_id (e : CanvasElement) : string := id (base_of e).
Definition el_x (e : CanvasElement) : Q := x (base_of e).
Definition el_y (e : CanvasElement) : Q := y (base_of e).
Definition el_width (e : CanvasElement) : Q := width (base_of e).
Definition el_height (e : CanvasElement) : Q := height (base_of e).

Definition is_group (e : CanvasElement) : bool :=
  match e with GroupElement _ _ => true | _ => false end.

Definition set_id (e : CanvasElement) (i : string) : CanvasElement :=
  let b := base_of e in
  with_base e (mkBase i (name b) (x b) (y b) (width b) (height b)
                 (rotation b) (opacity b) (locked b)).

Definition set_name (e : CanvasElement) (n : string) : CanvasElement :=
  let b := base_of e in
  with_base e (mkBase (id b) n (x b) (y b) (width b) (height b)
                 (rotation b) (opacity b) (locked b)).

Definition set_xy (e : CanvasElement) (nx ny : Q) : CanvasElement :=
  let b := base_of e in
  with_base e (mkBase (id b) (name b) nx ny (width b) (height b)
                 (rotation b) (opacity b) (locked b)).

(** [{ ...el, x, y, width, height }] *)
Definition set_geom (e : CanvasElement) (nx ny nw nh : Q) : CanvasElement :=
  let b := base_of e in
  with_base e (mkBase (id b) (name b) nx ny nw nh
                 (rotation b) (opacity b) (locked b)).

(** [pan: { x: number; y: number }] *)
Record Point := mkPoint { px : Q; py : Q }.

Definition Snapshot := list CanvasElement.

Record CanvasState := mkState {
  elements : list CanvasElement;
  selectedIds : list string;
  zoom : Q;
  pan : Point;
  interactionMode : InteractionMode;
  history : list Snapshot;
  redoStack : list Snapshot
}.

(** [deepCopy]: [structuredClone] of plain data. *)
Definition deepCopy {A : Type} (v : A) : A := v.

Definition baseState : CanvasState :=
  mkState [] [] 1 (mkPoint 0 0) mode_select [] [].

(** [array.includes(s)] on string arrays *)
Definition includes (l : list string) (s : string) : bool :=
  existsb (String.eqb s) l.

(** [Array.from(new Set(l))]: first occurrences, in order. *)
Fixpoint dedup_aux (seen : list string) (l : list string) : list string :=
  match l with
  | [] => []
  | s :: r => if includes seen s then dedup_aux seen r else s :: dedup_aux (seen ++ [s]) r
  end.

Definition setFrom (l : list string) : list string := dedup_aux [] l.

(** ** Reducer ([canvasReducer]) *)

Inductive Action :=
| SET_ELEMENTS (updater : list CanvasElement -> list CanvasElement)
    (recordHistory : bool) (historySnapshot : option Snapshot)
| SET_SELECTION (payload : list string) (additive : bool)
| CLEAR_SELECTION
| SET_ZOOM (payload : Q)
| PAN_BY (payload : Point)
| SET_MODE (payload : InteractionMode)
| UNDO
| REDO.

Definition with_elements (s : CanvasState) (els : list CanvasElement) : CanvasState :=
  mkState els (selectedIds s) (zoom s) (pan s) (interactionMode s) (history s) (redoStack s).

Definition canvasReducer (state : CanvasState) (action : Action) : CanvasState :=
  match action with
  | SET_ELEMENTS updater shouldRecord historySnapshot =>
      let workingCopy := deepCopy (elements state) in
      let updated := updater workingCopy in
      mkState updated (selectedIds state) (zoom state) (pan state) (interactionMode state)
        (if shouldRecord
         then history state ++ [match historySnapshot with
                                | Some h => h
                                | None => deepCopy (elements state)
                                end]
         else history state)
        (if shouldRecord then [] else redoStack state)
  | SET_SELECTION payload additive =>
      mkState (elements state)
        (if additive then setFrom (selectedIds state ++ payload) else payload)
        (zoom state) (pan state) (interactionMode state) (history state) (redoStack state)
  | CLEAR_SELECTION =>
      mkState (elements state) [] (zoom state) (pan state) (interactionMode state)
        (history state) (redoStack state)
  | SET_ZOOM z =>
      mkState (elements state) (selectedIds state) z (pan state) (interactionMode state)
        (history state) (redoStack state)
  | PAN_BY d =>
      mkState (elements state) (selectedIds state) (zoom state)
        (mkPoint (px (pan state) + px d) (py (pan state) + py d))
        (interactionMode state) (history state) (redoStack state)
  | SET_MODE m =>
      mkState (elements state) (selectedIds state) (zoom state) (pan state) m
        (history state) (redoStack state)
  | UNDO =>
      match history state with
      | [] => state
      | _ =>
          let previous := last (history state) [] in
          let nextHistory := removelast (history state) in
          mkState previous [] (zoom state) (pan state) (interactionMode state)
            nextHistory (deepCopy (elements state) :: redoStack state)
      end
  | REDO =>
      match redoStack state with
      | [] => state
      | next :: rest =>
          mkState next [] (zoom state) (pan state) (interactionMode state)
            (history state ++ [deepCopy (elements state)]) rest
      end
  end.

(** ** Provider ([CanvasProvider]): reducer state plus the clipboard refs and the
    source of [crypto.randomUUID()], modelled as a counter. *)

Record Provider := mkProvider {
  state : CanvasState;
  clipboardRef : list CanvasElement;
  pasteCountRef : Z;
  idSeed : N
}.

Definition nat_to_string (n : nat) : string := NilEmpty.string_of_uint (Nat.to_uint n).

(** [createId]: one fresh identifier per call. *)
Definition createId (seed : N) : string :=
  ("uuid-" ++ NilEmpty.string_of_uint (N.to_uint seed))%string.

Definition nextId (p : Provider) : string * Provider :=
  (createId (idSeed p),
   mkProvider (state p) (clipboardRef p) (pasteCountRef p) (N.succ (idSeed p))).

Definition dispatch (p : Provider) (a : Action) : Provider :=
  mkProvider (canvasReducer (state p) a) (clipboardRef p) (pasteCountRef p) (idSeed p).

(** [options?: { recordHistory?: boolean; historySnapshot?: CanvasElement[] }] *)
Record MutateOptions := mkOptions {
  opt_recordHistory : option bool;
  opt_historySnapshot : option Snapshot
}.

Definition noOptions : MutateOptions := mkOptions None None.

Definition mutateElements (p : Provider) (updater : list CanvasElement -> list CanvasElement)
    (options : MutateOptions) : Provider :=
  dispatch p (SET_ELEMENTS updater
                (match opt_recordHistory options with Some b => b | None => true end)
                (opt_historySnapshot options)).

Definition setSelection (p : Provider) (ids : list string) (additive : bool) : Provider :=
  dispatch p (SET_SELECTION ids additive).

Definition clearSelection (p : Provider) : Provider := dispatch p CLEAR_SELECTION.

Definition undo (p : Provider) : Provider := dispatch p UNDO.
Definition redo (p : Provider) : Provider := dispatch p REDO.

Definition setZoom (p : Provider) (z : Q) : Provider :=
  dispatch p (SET_ZOOM (Qmin 3 (Qmax (1#4) z))).
Definition panBy (p : Provider) (d : Point) : Provider := dispatch p (PAN_BY d).
Definition setInteractionMode (p : Provider) (m : InteractionMode) : Provider :=
  dispatch p (SET_MODE m).

(** [copy]: the selected elements, deep-copied into the clipboard; resets the
    paste counter. *)
Definition copy (p : Provider) : Provider :=
  let selectedElements :=
    filter (fun el => includes (selectedIds (state p)) (el_id el)) (elements (state p)) in
  match selectedElements with
  | [] => p
  | _ => mkProvider (state p) (deepCopy selectedElements) 1 (idSeed p)
  end.

(** The [clipboard.forEach] loop of [paste]: fresh id, [" 副本"] name suffix,
    position shifted by [offset]; returns [(newElements, newIds, seed)]. *)
Fixpoint pasteItems (clipboard : list CanvasElement) (offset : Q) (seed : N)
  : list CanvasElement * list string * N :=
  match clipboard with
  | [] => ([], [], seed)
  | item :: rest =>
      let newId := createId seed in
      let newElement :=
        set_xy (set_name (set_id (deepCopy item) newId) ((name (base_of item) ++ " 副本")%string))
          (el_x item + offset) (el_y item + offset) in
      let '(els, ids, seed') := pasteItems rest offset (N.succ seed) in
      (newElement :: els, newId :: ids, seed')
  end.

Definition paste (p : Provider) : Provider :=
  let clipboard := clipboardRef p in
  match clipboard with
  | [] => p
  | _ =>
      let offset := inject_Z (20 * pasteCountRef p) in
      let '(newElements, newIds, seed') := pasteItems clipboard offset (idSeed p) in
      let p1 := mkProvider (state p) (clipboardRef p) (pasteCountRef p) seed' in
      let p2 := mutateElements p1 (fun prev => prev ++ newElements) noOptions in
      let p3 := dispatch p2 (SET_SELECTION newIds false) in
      mkProvider (state p3) (clipboardRef p3) (pasteCountRef p3 + 1) (idSeed p3)
  end.

Definition shape_name (s : ShapeVariant) : string :=
  match s with rectangle => "rectangle" | circle => "circle" | triangle => "triangle" end.

Definition addShape (p : Provider) (shape : ShapeVariant) : Provider :=
  let '(newId, p1) := nextId p in
  let size := match shape with rectangle => (220, 140) | _ => (160, 160) end in
  let element :=
    ShapeElement
      (mkBase newId ((shape_name shape ++ " " ++ nat_to_string (List.length (elements (state p)) + 1))%string)
         320 180 (fst size) (snd size) 0 1 None)
      shape "#f8fafc" "#0f172a" 1 (match shape with rectangle => 12 | _ => 0 end) in
  let p2 := mutateElements p1 (fun els => els ++ [element]) noOptions in
  dispatch p2 (SET_SELECTION [newId] false).

(** [updateElement(id, changes)]: [changes] given as the merge it performs. *)
Definition updateElement (p : Provider) (i : string)
    (changes : CanvasElement -> CanvasElement) : Provider :=
  mutateElements p
    (fun els => map (fun el => if String.eqb (el_id el) i then changes el else el) els)
    noOptions.

Definition deleteSelected (p : Provider) : Provider :=
  match selectedIds (state p) with
  | [] => p
  | sel =>
      let p1 := mutateElements p
                  (fun els => filter (fun el => negb (includes sel (el_id el))) els)
                  noOptions in
      dispatch p1 CLEAR_SELECTION
  end.

(** ** Grouping *)

(** The [minX/minY/maxX/maxY] fold of [groupElements] (also [getBoundingBox]);
    [None] stands for the initial [Infinity]/[-Infinity] values, i.e. an empty
    list. *)
Definition bbox_step (acc : option (Q * Q * Q * Q)) (el : CanvasElement)
  : option (Q * Q * Q * Q) :=
  match acc with
  | None => Some (el_x el, el_y el, el_x el + el_width el, el_y el + el_height el)
  | Some (minX, minY, maxX, maxY) =>
      Some (Qmin minX (el_x el), Qmin minY (el_y el),
            Qmax maxX (el_x el + el_width el), Qmax maxY (el_y el + el_height el))
  end.

Definition bbox (els : list CanvasElement) : option (Q * Q * Q * Q) :=
  fold_left bbox_step els None.

Definition groupElements (p : Provider) : Provider :=
  let st := state p in
  if Nat.leb (List.length (selectedIds st)) 1 then p else
  let selectedElements :=
    filter (fun el => includes (selectedIds st) (el_id el)) (elements st) in
  match bbox selectedElements with
  | None => p (* no live element selected: the source builds a group at
                 [Infinity], which has no rational counterpart *)
  | Some (minX, minY, maxX, maxY) =>
      let '(groupId, p1) := nextId p in
      let childElements :=
        map (fun el => set_xy (deepCopy el) (el_x el - minX) (el_y el - minY))
          selectedElements in
      let group :=
        GroupElement
          (mkBase groupId
             (("组 " ++ nat_to_string (List.length (filter is_group (elements st)) + 1))%string)
             minX minY (maxX - minX) (maxY - minY) 0 1 None)
          childElements in
      let p2 := mutateElements p1
                  (fun els =>
                     filter (fun el => negb (includes (selectedIds st) (el_id el))) els
                     ++ [group])
                  noOptions in
      dispatch p2 (SET_SELECTION [groupId] false)
  end.

(** Accumulator of [processChildren]: [groupChildren], [newIds] and the id source. *)
Record UngroupAcc := mkAcc {
  groupChildren : list CanvasElement;
  newIds : list string;
  accSeed : N
}.

(** [processChildren], one child at a time: the copy is moved by the parent's
    offset; a nested group gets a new id, which is pushed to [newIds], and its
    children are processed against its (now absolute) position; any other
    element gets a new id and is pushed to both [newIds] and [groupChildren]. *)
Fixpoint processChild (child : CanvasElement) (parentX parentY : Q) (acc : UngroupAcc)
  {struct child} : UngroupAcc :=
  let newElement := set_xy (deepCopy child) (el_x child + parentX) (el_y child + parentY) in
  match child with
  | GroupElement _ kids =>
      let newId := createId (accSeed acc) in
      let acc1 := mkAcc (groupChildren acc) (newIds acc ++ [newId]) (N.succ (accSeed acc)) in
      (fix processChildren (l : list CanvasElement) (acc : UngroupAcc) : UngroupAcc :=
         match l with
         | [] => acc
         | c :: r => processChildren r (processChild c (el_x newElement) (el_y newElement) acc)
         end) kids acc1
  | _ =>
      let newId := createId (accSeed acc) in
      mkAcc (groupChildren acc ++ [set_id newElement newId]) (newIds acc ++ [newId])
        (N.succ (accSeed acc))
  end.

Fixpoint processChildren (children : list CanvasElement) (parentX parentY : Q)
    (acc : UngroupAcc) : UngroupAcc :=
  match children with
  | [] => acc
  | c :: r => processChildren r parentX parentY (processChild c parentX parentY acc)
  end.

Definition find_group (els : list CanvasElement) (i : string) : option CanvasElement :=
  find (fun el => String.eqb (el_id el) i && is_group el) els.

Definition ungroupElements (p : Provider) : Provider :=
  let st := state p in
  match selectedIds st with
  | [sid] =>
      match find_group (elements st) sid with
      | Some (GroupElement gb kids) =>
          let acc := processChildren kids (x gb) (y gb) (mkAcc [] [] (idSeed p)) in
          let p1 := mkProvider st (clipboardRef p) (pasteCountRef p) (accSeed acc) in
          let p2 := mutateElements p1
                      (fun els => filter (fun el => negb (String.eqb (el_id el) (id gb))) els
                                  ++ groupChildren acc)
                      noOptions in
          dispatch p2 (SET_SELECTION (newIds acc) false)
      | _ => p
      end
  | _ => p
  end.

(** ** Resize ([PixiCanvas.tsx]: [handleResizeStart], [performResize]) *)

Inductive ResizeDirection := dir_n | dir_ne | dir_e | dir_se | dir_s | dir_sw | dir_w | dir_nw.

Definition direction_string (d : ResizeDirection) : string :=
  match d with
  | dir_n => "n" | dir_ne => "ne" | dir_e => "e" | dir_se => "se"
  | dir_s => "s" | dir_sw => "sw" | dir_w => "w" | dir_nw => "nw"
  end.

(** [direction.includes(c)] for a one-character [c] *)
Fixpoint str_includes (s : string) (c : Ascii.ascii) : bool :=
  match s with
  | EmptyString => false
  | String a r => Ascii.eqb a c || str_includes r c
  end.

Definition dir_includes (d : ResizeDirection) (c : Ascii.ascii) : bool :=
  str_includes (direction_string d) c.

Definition MIN_ELEMENT_SIZE : Q := 0.

(** [{ x, y, width, height }] *)
Record Rect := mkRect { rx : Q; ry : Q; rw : Q; rh : Q }.

(** [getBoundingBox]: [null] for an empty list. *)
Definition getBoundingBox (els : list CanvasElement) : option Rect :=
  match bbox els with
  | None => None
  | Some (minX, minY, maxX, maxY) => Some (mkRect minX minY (maxX - minX) (maxY - minY))
  end.

(** [Record<string, CanvasElement>] filled by [elements.forEach]: later entries
    overwrite earlier ones. *)
Definition ElementRecord := string -> option CanvasElement.

Definition recordOf (els : list CanvasElement) : ElementRecord :=
  fold_left (fun r el => fun k => if String.eqb k (el_id el) then Some el else r k)
    els (fun _ => None).

(** The part of [resizeRef.current] that [performResize] reads. *)
Record ResizeInfo := mkResizeInfo {
  ri_ids : list string;
  direction : ResizeDirection;
  startElements : ElementRecord;
  startBounds : Rect
}.

(** [handleResizeStart] (select mode, content present): snapshot of the
    targeted elements and of their bounding box. *)
Definition handleResizeStart (st : CanvasState) (ids : list string) (dir : ResizeDirection)
  : option ResizeInfo :=
  let els := filter (fun el => includes ids (el_id el)) (elements st) in
  match els with
  | [] => None
  | _ =>
      match getBoundingBox els with
      | None => None
      | Some bounds => Some (mkResizeInfo ids dir (recordOf els) bounds)
      end
  end.

(** [newBounds] of [performResize]: the four [if (direction.includes(..))]
    updates, in source order. *)
Definition computeNewBounds (dir : ResizeDirection) (sb : Rect) (dx dy : Q) : Rect :=
  let b0 := sb in
  let b1 := if dir_includes dir "e"%char
            then mkRect (rx b0) (ry b0) (Qmax MIN_ELEMENT_SIZE (rw sb + dx)) (rh b0)
            else b0 in
  let b2 := if dir_includes dir "s"%char
            then mkRect (rx b1) (ry b1) (rw b1) (Qmax MIN_ELEMENT_SIZE (rh sb + dy))
            else b1 in
  let b3 := if dir_includes dir "w"%char
            then let updatedWidth := Qmax MIN_ELEMENT_SIZE (rw sb - dx) in
                 let delta := rw sb - updatedWidth in
                 mkRect (rx sb + delta) (ry b2) updatedWidth (rh b2)
            else b2 in
  let b4 := if dir_includes dir "n"%char
            then let updatedHeight := Qmax MIN_ELEMENT_SIZE (rh sb - dy) in
                 let delta := rh sb - updatedHeight in
                 mkRect (rx b3) (ry sb + delta) (rw b3) updatedHeight
            else b3 in
  b4.

(** [startBounds.width > 0 ? newBounds.width / startBounds.width : 1] *)
Definition scaleOf (newSize startSize : Q) : Q :=
  if Qle_bool startSize 0 then 1 else newSize / startSize.

(** The callback of [elements.map] in [performResize]. *)
Definition resizeElement (info : ResizeInfo) (dx dy : Q) (el : CanvasElement) : CanvasElement :=
  let sb := startBounds info in
  let nb := computeNewBounds (direction info) sb dx dy in
  let scaleX := scaleOf (rw nb) (rw sb) in
  let scaleY := scaleOf (rh nb) (rh sb) in
  if negb (includes (ri_ids info) (el_id el)) then el else
  match startElements info (el_id el) with
  | None => el
  | Some startEl =>
      let newX := rx nb + (el_x startEl - rx sb) * scaleX in
      let newY := ry nb + (el_y startEl - ry sb) * scaleY in
      let newWidth := Qmax MIN_ELEMENT_SIZE (el_width startEl * scaleX) in
      let newHeight := Qmax MIN_ELEMENT_SIZE (el_height startEl * scaleY) in
      set_geom el newX newY newWidth newHeight
  end.

(** The updater that [performResize] hands to [mutateElements]. *)
Definition resizeUpdater (info : ResizeInfo) (dx dy : Q) (els : list CanvasElement)
  : list CanvasElement :=
  map (resizeElement info dx dy) els.

Definition performResize (p : Provider) (info : ResizeInfo) (dx dy : Q) : Provider :=
  mutateElements p (resizeUpdater info dx dy) (mkOptions (Some false) None).

(** ** Marquee selection ([PixiCanvas.tsx]: background [pointerdown], stage
    [pointermove], [stopInteractions]) *)

(** [Rectangle.intersects] of the rendering library (no transform argument):
    the overlap must have positive extent on both axes. *)
Definition rect_intersects (a o : Rect) : bool :=
  let x0 := if Qlt_le_dec (rx a) (rx o) then rx o else rx a in
  let x1 := if Qlt_le_dec (rx o + rw o) (rx a + rw a) then rx o + rw o else rx a + rw a in
  if Qle_bool x1 x0 then false else
  let y0 := if Qlt_le_dec (ry a) (ry o) then ry o else ry a in
  let y1 := if Qlt_le_dec (ry o + rh o) (ry a + rh a) then ry o + rh o else ry a + rh a in
  negb (Qle_bool y1 y0).

(** The rectangle drawn by the [pointermove] branch, in [content] (document)
    coordinates: [min] of the two points, [abs] of their difference. *)
Definition marqueeLocalRect (start cur : Point) : Rect :=
  mkRect (Qmin (px start) (px cur)) (Qmin (py start) (py cur))
         (Qabs (px start - px cur)) (Qabs (py start - py cur)).

(** [selectionBox.getBounds()]: world-space bounds of a graphic drawn inside
    [content], whose transform is [position = pan] and [scale = zoom]
    (positive); [pad] is the half stroke width the bounds may add around the
    drawn rectangle, in local units. *)
Definition worldBounds (st : CanvasState) (pad : Q) (r : Rect) : Rect :=
  mkRect (px (pan st) + zoom st * (rx r - pad)) (py (pan st) + zoom st * (ry r - pad))
         (zoom st * (rw r + 2 * pad)) (zoom st * (rh r + 2 * pad)).

Definition elemRect (el : CanvasElement) : Rect :=
  mkRect (el_x el) (el_y el) (el_width el) (el_height el).

(** [stopInteractions], marquee branch: [start] recorded at pointer-down, [cur]
    the last pointer position drawn by [pointermove]. *)
Definition marqueeRelease (p : Provider) (pad : Q) (start cur : Point) : Provider :=
  let st := state p in
  let selectionRect := worldBounds st pad (marqueeLocalRect start cur) in
  let selectedElements :=
    filter (fun el => rect_intersects selectionRect (elemRect el)) (elements st) in
  match selectedElements with
  | [] => clearSelection p
  | _ => setSelection p (map el_id selectedElements) false
  end.

(** The selection rule as the specification words it: an element is selected
    exactly when its box overlaps the document-space rectangle spanned by the
    two marquee points. *)
Definition marqueeSpecSelects (start cur : Point) (el : CanvasElement) : bool :=
  rect_intersects (marqueeLocalRect start cur) (elemRect el).

(** ** More provider operations ([CanvasProvider]) *)

(** [addText(text = "双击编辑文本")]: [None] is the omitted argument; an empty
    string is replaced by the placeholder text ([text || ...]). *)
Definition addText (p : Provider) (text : option string) : Provider :=
  let t := match text with None => "双击编辑文本"%string | Some s => s end in
  let '(newId, p1) := nextId p in
  let element :=
    TextElement
      (mkBase newId (("文本 " ++ nat_to_string (List.length (elements (state p)) + 1))%string)
         360 220 260 80 0 1 None)
      (if String.eqb t "" then "请输入文本内容..."%string else t)
      24 "Inter" 500 align_left "#0f172a" "#ffffff" (13#10) in
  let p2 := mutateElements p1 (fun els => els ++ [element]) noOptions in
  dispatch p2 (SET_SELECTION [newId] false).

(** [addImage(src, size?)]: [None] is the omitted size. *)
Definition addImage (p : Provider) (src : string) (size : option (Q * Q)) : Provider :=
  let '(newId, p1) := nextId p in
  let w := match size with Some (sw, _) => sw | None => 240 end in
  let h := match size with Some (_, sh) => sh | None => 160 end in
  let element :=
    ImageElement
      (mkBase newId (("图片 " ++ nat_to_string (List.length (elements (state p)) + 1))%string)
         280 160 w h 0 1 None)
      src (mkFilters false 0 1) 12 in
  let p2 := mutateElements p1 (fun els => els ++ [element]) noOptions in
  dispatch p2 (SET_SELECTION [newId] false).

(** [updateSelectedElements(updater)]: [merge el] stands for
    [{ ...el, ...updater(el) }]. *)
Definition updateSelectedElements (p : Provider) (merge : CanvasElement -> CanvasElement)
  : Provider :=
  let ids := selectedIds (state p) in
  match ids with
  | [] => p
  | _ =>
      mutateElements p
        (fun els => map (fun el => if includes ids (el_id el) then merge el else el) els)
        noOptions
  end.

(** ** Pointer gestures ([PixiCanvas.tsx]) *)

(** [dragRef.current] *)
Record DragRef := mkDragRef {
  drag_ids : list string;
  drag_startPointer : Point;
  drag_snapshot : ElementRecord;
  drag_historySnapshot : Snapshot;
  drag_moved : bool
}.

(** [handleElementPointerDown] (content present), with the pointer position
    [local] in content coordinates; in pan mode it does nothing. *)
Definition handleElementPointerDown (p : Provider) (elementId : string) (additive : bool)
    (local : Point) : Provider * option DragRef :=
  let st := state p in
  match interactionMode st with
  | mode_pan => (p, None)
  | mode_select =>
      let selection :=
        if additive then setFrom (selectedIds st ++ [elementId])
        else if includes (selectedIds st) elementId then selectedIds st
        else [elementId] in
      let p1 := setSelection p selection false in
      let snapshot :=
        recordOf (filter (fun el => includes selection (el_id el)) (elements st)) in
      (p1, Some (mkDragRef selection local snapshot (deepCopy (elements st)) false))
  end.

(** [handleSelectionBoxPointerDown] (content present). *)
Definition handleSelectionBoxPointerDown (p : Provider) (local : Point) : option DragRef :=
  let st := state p in
  match interactionMode st with
  | mode_pan => None
  | mode_select =>
      let snapshot :=
        recordOf (filter (fun el => includes (selectedIds st) (el_id el)) (elements st)) in
      Some (mkDragRef (selectedIds st) local snapshot (deepCopy (elements st)) false)
  end.

(** The drag branch of the stage's [pointermove]: elements move from their
    snapshot by the pointer's offset from the start, without recording
    history, once the offset exceeds 0.01 on an axis. *)
Definition dragMove (p : Provider) (d : DragRef) (local : Point) : Provider * DragRef :=
  let dx := px local - px (drag_startPointer d) in
  let dy := py local - py (drag_startPointer d) in
  if negb (Qle_bool (Qabs dx) (1#100)) || negb (Qle_bool (Qabs dy) (1#100)) then
    (mutateElements p
       (fun els =>
          map (fun el =>
                 if negb (includes (drag_ids d) (el_id el)) then el else
                 let base := match drag_snapshot d (el_id el) with
                             | Some b => b
                             | None => el
                             end in
                 set_xy el (el_x base + dx) (el_y base + dy)) els)
       (mkOptions (Some false) None),
     mkDragRef (drag_ids d) (drag_startPointer d) (drag_snapshot d)
       (drag_historySnapshot d) true)
  else (p, d).

(** The drag part of [stopInteractions]: one history entry, the elements as
    they were at pointer-down, if the pointer moved. *)
Definition dragRelease (p : Provider) (d : DragRef) : Provider :=
  if drag_moved d
  then mutateElements p (fun els => els) (mkOptions None (Some (drag_historySnapshot d)))
  else p.

Fixpoint dragMoves (p : Provider) (d : DragRef) (moves : list Point) : Provider * DragRef :=
  match moves with
  | [] => (p, d)
  | m :: rest => let '(p1, d1) := dragMove p d m in dragMoves p1 d1 rest
  end.

(** A drag gesture: the pointer positions of [pointermove], then the release. *)
Definition runDrag (p : Provider) (d : DragRef) (moves : list Point) : Provider :=
  let '(p1, d1) := dragMoves p d moves in dragRelease p1 d1.

(** [resizeRef.current] *)
Record ResizeRef := mkResizeRef {
  rr_info : ResizeInfo;
  rr_startPointer : Point;
  rr_historySnapshot : Snapshot;
  rr_moved : bool
}.

(** [handleResizeStart] as a whole: nothing in pan mode. *)
Definition resizeStart (st : CanvasState) (ids : list string) (dir : ResizeDirection)
    (local : Point) : option ResizeRef :=
  match interactionMode st with
  | mode_pan => None
  | mode_select =>
      match handleResizeStart st ids dir with
      | Some info => Some (mkResizeRef info local (deepCopy (elements st)) false)
      | None => None
      end
  end.

(** The resize branch of the stage's [pointermove]. *)
Definition resizeMove (p : Provider) (r : ResizeRef) (local : Point) : Provider * ResizeRef :=
  let dx := px local - px (rr_startPointer r) in
  let dy := py local - py (rr_startPointer r) in
  (performResize p (rr_info r) dx dy,
   mkResizeRef (rr_info r) (rr_startPointer r) (rr_historySnapshot r) true).

(** The resize part of [stopInteractions]. *)
Definition resizeRelease (p : Provider) (r : ResizeRef) : Provider :=
  if rr_moved r
  then mutateElements p (fun els => els) (mkOptions None (Some (rr_historySnapshot r)))
  else p.

Fixpoint resizeMoves (p : Provider) (r : ResizeRef) (moves : list Point)
  : Provider * ResizeRef :=
  match moves with
  | [] => (p, r)
  | m :: rest => let '(p1, r1) := resizeMove p r m in resizeMoves p1 r1 rest
  end.

Definition runResize (p : Provider) (r : ResizeRef) (moves : list Point) : Provider :=
  let '(p1, r1) := resizeMoves p r moves in resizeRelease p1 r1.

(** ** Space key ([CanvasArea.tsx]: [handleKeyDown], [handleKeyUp]) *)

(** [spacePressedRef.current] and [prevModeRef.current]. *)
Record KeyState := mkKeyState {
  spacePressed : bool;
  prevMode : option InteractionMode
}.

(** [isSpace]: [event.code === "Space"]; [inInput]: the focus is in an input
    or a textarea. [modeRef.current] is the state's mode. *)
Definition handleKeyDown (p : Provider) (ks : KeyState) (isSpace repeat inInput : bool)
  : Provider * KeyState :=
  if negb isSpace || repeat then (p, ks) else
  if inInput then (p, ks) else
  if spacePressed ks then (p, ks) else
  match interactionMode (state p) with
  | mode_pan => (p, mkKeyState true None)
  | m => (setInteractionMode p mode_pan, mkKeyState true (Some m))
  end.

Definition handleKeyUp (p : Provider) (ks : KeyState) (isSpace : bool) : Provider * KeyState :=
  if negb isSpace then (p, ks) else
  match prevMode ks with
  | Some m => (setInteractionMode p m, mkKeyState false None)
  | None => (p, mkKeyState false None)
  end.

(** ** User operations *)

(** What a user can do: the provider's operations as the panels and
    shortcuts call them, a click (and drag) on the [n]-th rendered element, a
    drag of the selection box, a resize through a handle of the selection, and
    a marquee. *)
Inductive Op :=
| OpAddShape (s : ShapeVariant)
| OpAddText (t : option string)
| OpAddImage (src : string) (size : option (Q * Q))
| OpCopy
| OpPaste
| OpGroup
| OpUngroup
| OpDelete
| OpUndo
| OpRedo
| OpSelect (ids : list string) (additive : bool)
| OpClear
| OpZoom (z : Q)
| OpPan (d : Point)
| OpMode (m : InteractionMode)
| OpClick (n : nat) (additive : bool) (start : Point) (moves : list Point)
| OpBoxDrag (start : Point) (moves : list Point)
| OpResize (dir : ResizeDirection) (start : Point) (moves : list Point)
| OpMarquee (pad : Q) (start cur : Point).

Definition runOp (p : Provider) (o : Op) : Provider :=
  match o with
  | OpAddShape s => addShape p s
  | OpAddText t => addText p t
  | OpAddImage src size => addImage p src size
  | OpCopy => copy p
  | OpPaste => paste p
  | OpGroup => groupElements p
  | OpUngroup => ungroupElements p
  | OpDelete => deleteSelected p
  | OpUndo => undo p
  | OpRedo => redo p
  | OpSelect ids additive => setSelection p ids additive
  | OpClear => clearSelection p
  | OpZoom z => setZoom p z
  | OpPan d => panBy p d
  | OpMode m => setInteractionMode p m
  | OpClick n additive start moves =>
      match nth_error (elements (state p)) n with
      | None => p
      | Some el =>
          match handleElementPointerDown p (el_id el) additive start with
          | (p1, None) => p1
          | (p1, Some d) => runDrag p1 d moves
          end
      end
  | OpBoxDrag start moves =>
      match handleSelectionBoxPointerDown p start with
      | None => p
      | Some d => runDrag p d moves
      end
  | OpResize dir start moves =>
      match resizeStart (state p) (selectedIds (state p)) dir start with
      | None => p
      | Some r => runResize p r moves
      end
  | OpMarquee pad start cur =>
      match interactionMode (state p) with
      | mode_select => marqueeRelease p pad start cur
      | mode_pan => p
      end
  end.

Definition runOps (p : Provider) (ops : list Op) : Provider := fold_left runOp ops p.

(** ** Reading aids for the statements below *)

(** The non-group descendants of an element, each with the sum of the offsets
    of the groups enclosing it (the descendant's own [x]/[y] excluded), in
    depth-first order. *)
Fixpoint leafCopies (c : CanvasElement) (ox oy : Q) : list (CanvasElement * Q * Q) :=
  match c with
  | GroupElement b kids =>
      (fix go (l : list CanvasElement) : list (CanvasElement * Q * Q) :=
         match l with
         | [] => []
         | k :: r => leafCopies k (x b + ox) (y b + oy) ++ go r
         end) kids
  | _ => [(c, ox, oy)]
  end.

(** A copy [o] of the descendant [c] placed at absolute coordinates. *)
Definition leafRel (d : CanvasElement * Q * Q) (o : CanvasElement) : Prop :=
  let '(c, ox, oy) := d in
  el_x o = el_x c + ox /\ el_y o = el_y c + oy
  /\ el_width o = el_width c /\ el_height o = el_height c
  /\ name (base_of o) = name (base_of c) /\ is_group o = false.

(** The ids [createId s], [createId (s+1)], ..., [m] of them. *)
Fixpoint freshIds (s : N) (m : nat) : list string :=
  match m with
  | O => []
  | S m' => createId s :: freshIds (N.succ s) m'
  end.

(** Number of nodes of an element tree. *)
Fixpoint el_size (c : CanvasElement) : nat :=
  match c with
  | GroupElement _ kids => S (list_sum (map el_size kids))
  | _ => 1
  end.

Definition rectEq (a b : Rect) : Prop :=
  rx a == rx b /\ ry a == ry b /\ rw a == rw b /\ rh a == rh b.

(** One element [e] appended and selected by an [add*] call: [e] carries the
    next id; one history entry is recorded, the redo stack is cleared, and the
    clipboard refs are untouched. *)
Definition addedOne (p q : Provider) : Prop :=
  exists e,
    elements (state q) = elements (state p) ++ [e]
    /\ el_id e = createId (idSeed p)
    /\ selectedIds (state q) = [el_id e]
    /\ history (state q) = history (state p) ++ [elements (state p)]
    /\ redoStack (state q) = []
    /\ idSeed q = N.succ (idSeed p)
    /\ clipboardRef q = clipboardRef p
    /\ pasteCountRef q = pasteCountRef p.

(** The [text] field of a text element. *)
Definition el_text (e : CanvasElement) : option string :=
  match e with TextElement _ t _ _ _ _ _ _ _ => Some t | _ => None end.

(** The elements [els0] resized by the offset of [lp] from the gesture's start. *)
Definition resizedAt (r : ResizeRef) (lp : Point) (els0 : list CanvasElement) :=
  map (resizeElement (rr_info r) (px lp - px (rr_startPointer r))
                     (py lp - py (rr_startPointer r))) els0.

(** The offset of a drag pointer position from the start, when it passes the
    0.01 threshold of [pointermove]. *)
Definition dragOffset (start m : Point) : option (Q * Q) :=
  let dx := px m - px start in
  let dy := py m - py start in
  if negb (Qle_bool (Qabs dx) (1#100)) || negb (Qle_bool (Qabs dy) (1#100))
  then Some (dx, dy) else None.

(** The offset of the last pointer position of [moves] that passes the
    threshold, if any. *)
Fixpoint lastDragOffset (start : Point) (moves : list Point) : option (Q * Q) :=
  match moves with
  | [] => None
  | m :: r => match lastDragOffset start r with
              | Some o => Some o
              | None => dragOffset start m
              end
  end.

(** An element moved by the offset [o] when its id is in [sel]. *)
Definition moveBy (sel : list string) (o : option (Q * Q)) (e : CanvasElement) : CanvasElement :=
  if includes sel (el_id e)
  then match o with Some (dx, dy) => set_xy e (el_x e + dx) (el_y e + dy) | None => e end
  else e.

(** A run of [keydown] events, each given as [(isSpace, repeat, inInput)]. *)
Fixpoint keyDowns (p : Provider) (ks : KeyState) (evs : list (bool * bool * bool))
  : Provider * KeyState :=
  match evs with
  | [] => (p, ks)
  | (sp, rp, ii) :: r => let '(p1, k1) := handleKeyDown p ks sp rp ii in keyDowns p1 k1 r
  end.

(** The ids of [S] are distinct and were all drawn from the id source before
    the seed [s]. *)
Definition idsBelow (s : N) (S : Snapshot) : Prop :=
  NoDup (map el_id S) /\ forall i, In i (map el_id S) -> exists k, (k < s)%N /\ i = createId k.

(** [idsBelow] for the elements and for every snapshot of the undo and redo
    stacks. *)
Definition provIdsOk (p : Provider) : Prop :=
  idsBelow (idSeed p) (elements (state p))
  /\ Forall (idsBelow (idSeed p)) (history (state p))
  /\ Forall (idsBelow (idSeed p)) (redoStack (state p)).

(** The ids of the elements collected by [processChildren] are distinct and
    drawn from the id source between [s0] and the accumulator's seed. *)
Definition gcOk (s0 : N) (acc : UngroupAcc) : Prop :=
  (s0 <= accSeed acc)%N /\ NoDup (map el_id (groupChildren acc))
  /\ forall i, In i (map el_id (groupChildren acc)) ->
       exists k, (s0 <= k < accSeed acc)%N /\ i = createId k.

(** Every selected id names an element of the document. *)
Definition liveSel (p : Provider) : Prop :=
  incl (selectedIds (state p)) (map el_id (elements (state p))).

(** The rectangle [r] grown by [pad] on every side. *)
Definition growRect (pad : Q) (r : Rect) : Rect :=
  mkRect (rx r - pad) (ry r - pad) (rw r + 2 * pad) (rh r + 2 * pad).

(** ** Sample documents *)

Definition rectEl (i : string) (ex ey ew eh : Q) : CanvasElement :=
  ShapeElement (mkBase i i ex ey ew eh 0 1 None) rectangle "#f8fafc" "#0f172a" 1 0.

Definition docOf (els : list CanvasElement) (sel : list string) : Provider :=
  mkProvider (mkState els sel 1 (mkPoint 0 0) mode_select [] []) [] 0 0.

(** The provider as first mounted: empty document, paste counter at 1. *)
Definition initialProvider : Provider := mkProvider baseState [] 1 0.

(** Two recorded mutations: appending two shapes. *)
Definition sampleUpdaters : list (list CanvasElement -> list CanvasElement) :=
  [fun els => els ++ [rectEl "A" 0 0 10 10]; fun els => els ++ [rectEl "B" 20 0 10 10]].

(** A and B of the grouping example, both selected. *)
Definition groupDoc : Provider :=
  docOf [rectEl "A" 10 10 20 20; rectEl "B" 50 10 10 10] ["A"%string; "B"%string].

(** A document with one selected element and that element in the clipboard,
    pasted once already. *)
Definition pasteDoc : Provider :=
  mkProvider (mkState [rectEl "A" 10 10 20 20] ["A"%string] 1 (mkPoint 0 0) mode_select [] [])
    [rectEl "A" 10 10 20 20] 2 7.

(** One element of width 50, selected, for a drag of the [e] handle. *)
Definition eHandleDoc : Provider := docOf [rectEl "E" 10 20 50 40] ["E"%string].

(** A at (0,0,50,50) and B at (50,50,50,50), both selected. *)
Definition abDoc : Provider :=
  docOf [rectEl "A" 0 0 50 50; rectEl "B" 50 50 50 50] ["A"%string; "B"%string].

(** An element of negative width (the properties panel accepts any number)
    next to one of width 100, both selected. *)
Definition negWidthDoc : Provider :=
  docOf [rectEl "A" 0 0 (-10) 100; rectEl "B" 0 0 100 100] ["A"%string; "B"%string].

(** A selected group G at (100,100) holding a shape A and a group H at (30,40)
    that holds a shape B. *)
Definition nestedBase : ElementBase := mkBase "G" "G" 100 100 60 60 0 1 None.

Definition nestedKids : list CanvasElement :=
  [rectEl "A" 10 10 20 20;
   GroupElement (mkBase "H" "H" 30 40 20 20 0 1 None) [rectEl "B" 5 5 10 10]].

Definition nestedGroupDoc : Provider :=
  docOf [GroupElement nestedBase nestedKids] ["G"%string].

(** From the initial provider: add three shapes, click the first and
    shift-click the second, group them, click that group and shift-click the
    third shape, group again (a group inside a group), ungroup the outer
    group. *)
Definition nestedUngroupTrace : Provider :=
  let p1 := addShape (addShape (addShape initialProvider rectangle) circle) triangle in
  let p2 := setSelection (setSelection p1 ["uuid-0"%string] false) ["uuid-1"%string] true in
  let p3 := groupElements p2 in
  let p4 := setSelection (setSelection p3 ["uuid-3"%string] false) ["uuid-2"%string] true in
  let p5 := groupElements p4 in
  ungroupElements p5.

(** A document holding E at (0,0,100,100), viewed at zoom 1 after a pan by
    (300,300). *)
Definition pannedDoc : Provider :=
  panBy (docOf [rectEl "E" 0 0 100 100] []) (mkPoint 300 300).

(** The state after adding one shape and undoing it: one redo entry. *)
Definition undoneDoc : Provider := undo (addShape initialProvider rectangle).

(** The resize of E(10,20,50,40) through its [e] handle. *)
Definition eHandleInfo : ResizeInfo :=
  mkResizeInfo ["E"%string] dir_e (recordOf [rectEl "E" 10 20 50 40]) (mkRect 10 20 50 40).

(** ** History: undo and redo over a run of recorded mutations *)

Module History.

Local Open Scope nat_scope.

Definition Updater := list CanvasElement -> list CanvasElement.

(** [mutateElements(f)] with the default options ([recordHistory = true], no
    explicit snapshot), once per updater, in order. *)
Fixpoint applyMutations (p : Provider) (fs : list Updater) : Provider :=
  match fs with
  | [] => p
  | f :: r => applyMutations (mutateElements p f noOptions) r
  end.

(** The element arrays before the first mutation and after each one. *)
Fixpoint timeline (p : Provider) (fs : list Updater) : list Snapshot :=
  match fs with
  | [] => [elements (state p)]
  | f :: r => elements (state p) :: timeline (mutateElements p f noOptions) r
  end.

Definition undoS (s : CanvasState) : CanvasState := canvasReducer s UNDO.
Definition redoS (s : CanvasState) : CanvasState := canvasReducer s REDO.

(** A state sits at position [k] of the timeline [L]: the entries before [k]
    are on top of the older history [H], the current elements are entry [k],
    the entries after [k] are in front of the older redo stack [R]. *)
Definition view (t : CanvasState) (H L : list Snapshot) (k : nat) (R : list Snapshot) : Prop :=
  k < List.length L /\ history t = H ++ firstn k L /\ elements t = nth k L []
  /\ redoStack t = skipn (S k) L ++ R.

Lemma firstn_S_snoc {A : Type} (L : list A) (k : nat) (d : A) :
  k < List.length L -> firstn (S k) L = firstn k L ++ [nth k L d].
Proof.
  revert k; induction L as [|a L IH]; intros k Hk; simpl in Hk; [lia|].
  destruct k as [|k]; [reflexivity|].
  change (a :: firstn (S k) L = a :: firstn k L ++ [nth k L d]).
  rewrite IH; [reflexivity|lia].
Qed.

Lemma skipn_nth_cons {A : Type} (L : list A) (k : nat) (d : A) :
  k < List.length L -> skipn k L = nth k L d :: skipn (S k) L.
Proof.
  revert k; induction L as [|a L IH]; intros k Hk; simpl in Hk; [lia|].
  destruct k as [|k]; [reflexivity|].
  simpl. apply IH; lia.
Qed.

Lemma undoS_nonempty (t : CanvasState) :
  history t <> [] ->
  undoS t = mkState (last (history t) []) [] (zoom t) (pan t) (interactionMode t)
              (removelast (history t)) (elements t :: redoStack t).
Proof.
  intros Hne; unfold undoS, canvasReducer, deepCopy.
  destruct (history t); [congruence|reflexivity].
Qed.

Lemma view_undo (t : CanvasState) H L k R :
  view t H L (S k) R -> view (undoS t) H L k R.
Proof.
  intros (Hk & Hh & He & Hr).
  assert (Hh' : history t = (H ++ firstn k L) ++ [nth k L []]).
  { rewrite Hh, (firstn_S_snoc L k [] ltac:(lia)), app_assoc; reflexivity. }
  rewrite undoS_nonempty by (rewrite Hh'; destruct (H ++ firstn k L); discriminate).
  rewrite Hh', last_last, removelast_last.
  unfold view; cbn [elements history redoStack].
  split; [lia|]. split; [reflexivity|]. split; [reflexivity|].
  rewrite He, Hr, (skipn_nth_cons L (S k) [] Hk); reflexivity.
Qed.

Lemma view_redo (t : CanvasState) H L k R :
  view t H L k R -> S k < List.length L -> view (redoS t) H L (S k) R.
Proof.
  intros (Hk & Hh & He & Hr) HSk.
  rewrite (skipn_nth_cons L (S k) [] HSk) in Hr.
  unfold redoS, canvasReducer, deepCopy; rewrite Hr.
  unfold view; cbn [elements history redoStack].
  split; [exact HSk|]. split; [|split; reflexivity].
  rewrite Hh, He, (firstn_S_snoc L k [] Hk), app_assoc; reflexivity.
Qed.

Lemma view_shift (t : CanvasState) H e L k R :
  view t (H ++ [e]) L k R -> view t H (e :: L) (S k) R.
Proof.
  intros (Hk & Hh & He & Hr); repeat split; simpl; auto; [lia|].
  rewrite Hh, <- app_assoc; reflexivity.
Qed.

Lemma view_applyMutations (fs : list Updater) : forall p,
  view (state (applyMutations p fs)) (history (state p)) (timeline p fs) (List.length fs)
       (match fs with [] => redoStack (state p) | _ => [] end).
Proof.
  induction fs as [|f r IH]; intros p.
  - repeat split; simpl; auto. rewrite app_nil_r; reflexivity.
  - simpl. apply view_shift.
    specialize (IH (mutateElements p f noOptions)).
    destruct r; exact IH.
Qed.

Lemma timeline_length (fs : list Updater) : forall p,
  List.length (timeline p fs) = S (List.length fs).
Proof.
  induction fs as [|f r IH]; intros p; simpl; [reflexivity|]; rewrite IH; reflexivity.
Qed.

Lemma timeline_nth (fs : list Updater) : forall p k,
  k <= List.length fs ->
  nth k (timeline p fs) [] = elements (state (applyMutations p (firstn k fs))).
Proof.
  induction fs as [|f r IH]; intros p k Hk; simpl in Hk.
  - assert (k = 0) by lia; subst; reflexivity.
  - destruct k as [|k]; [reflexivity|].
    simpl; apply IH; lia.
Qed.

Lemma view_undo_iter (t : CanvasState) H L R : forall j k,
  j <= k -> view t H L k R -> view (Nat.iter j undoS t) H L (k - j) R.
Proof.
  induction j as [|j IH]; intros k Hjk Hv; simpl.
  - rewrite Nat.sub_0_r; exact Hv.
  - apply view_undo. replace (S (k - S j)) with (k - j) by lia. apply IH; [lia|exact Hv].
Qed.

Lemma view_redo_iter (t : CanvasState) H L R : forall j k,
  k + j < List.length L -> view t H L k R -> view (Nat.iter j redoS t) H L (k + j) R.
Proof.
  induction j as [|j IH]; intros k Hjk Hv; simpl.
  - rewrite Nat.add_0_r; exact Hv.
  - replace (k + S j) with (S (k + j)) by lia.
    apply view_redo; [apply IH; [lia|exact Hv]|lia].
Qed.

Lemma state_iter_undo (j : nat) (p : Provider) :
  state (Nat.iter j undo p) = Nat.iter j undoS (state p).
Proof. induction j as [|j IH]; simpl; [reflexivity|]; rewrite IH; reflexivity. Qed.

Lemma state_iter_redo (j : nat) (p : Provider) :
  state (Nat.iter j redo p) = Nat.iter j redoS (state p).
Proof. induction j as [|j IH]; simpl; [reflexivity|]; rewrite IH; reflexivity. Qed.

(** C1. Undo/redo inverse law: after recorded mutations [M1..Mn] (from any
    provider state), [j] undos show the elements as they were before the
    last [j] mutations, and after [n] undos, [j] redos show the elements as
    they were after the first [j] mutations; with [j = n] the redos restore
    the elements after [Mn] (and [n = 1] is one undo followed by one redo). *)
Theorem undo_redo_inverse (p : Provider) (fs : list Updater) (j : nat) :
  j <= List.length fs ->
  elements (state (Nat.iter j undo (applyMutations p fs)))
    = elements (state (applyMutations p (firstn (List.length fs - j) fs)))
  /\ elements (state (Nat.iter j redo (Nat.iter (List.length fs) undo (applyMutations p fs))))
    = elements (state (applyMutations p (firstn j fs))).
Proof.
  intros Hj.
  pose proof (view_applyMutations fs p) as Hv.
  pose proof (timeline_length fs p) as Hlen.
  split.
  - rewrite state_iter_undo.
    destruct (view_undo_iter _ _ _ _ j _ Hj Hv) as (_ & _ & He & _).
    rewrite He; apply timeline_nth; lia.
  - rewrite state_iter_redo, state_iter_undo.
    assert (Hv0 := view_undo_iter _ _ _ _ (List.length fs) _ (le_n _) Hv).
    rewrite Nat.sub_diag in Hv0.
    assert (Hjl : 0 + j < List.length (timeline p fs)) by lia.
    destruct (view_redo_iter _ _ _ _ j 0 Hjl Hv0) as (_ & _ & He & _).
    rewrite He; apply timeline_nth; lia.
Qed.

End History.

(** ** Element and provider facts *)

Lemma base_of_with_base (e : CanvasElement) (b : ElementBase) : base_of (with_base e b) = b.
Proof. destruct e; reflexivity. Qed.

Lemma createId_inj (n m : N) : createId n = createId m -> n = m.
Proof.
  unfold createId; simpl; intros H.
  repeat (injection H as H).
  apply DecimalN.Unsigned.to_uint_inj.
  apply (f_equal NilEmpty.uint_of_string) in H.
  rewrite !NilEmpty.usu in H; congruence.
Qed.

Lemma provider_eta (p : Provider) :
  mkProvider (state p) (clipboardRef p) (pasteCountRef p) (idSeed p) = p.
Proof. destruct p; reflexivity. Qed.

(** C10. Undo and redo leave the zoom level, the pan offset and the
    interaction mode as they are. *)
Theorem undo_redo_frame (p : Provider) :
  zoom (state (undo p)) = zoom (state p)
  /\ pan (state (undo p)) = pan (state p)
  /\ interactionMode (state (undo p)) = interactionMode (state p)
  /\ zoom (state (redo p)) = zoom (state p)
  /\ pan (state (redo p)) = pan (state p)
  /\ interactionMode (state (redo p)) = interactionMode (state p).
Proof.
  unfold undo, redo, dispatch, canvasReducer; simpl.
  destruct (history (state p)), (redoStack (state p)); repeat split.
Qed.

(** C8. Operations whose precondition fails leave the whole provider state
    (elements, selection, history, redo stack, clipboard, counters) as it is:
    undo with an empty history, grouping with at most one selected id,
    ungrouping when the selection is not exactly one id naming a live group,
    pasting an empty clipboard, deleting with an empty selection. *)
Theorem invalid_preconditions_noop (p : Provider) :
  (history (state p) = [] -> undo p = p)
  /\ (List.length (selectedIds (state p)) <= 1 -> groupElements p = p)%nat
  /\ (~ (exists sid g, selectedIds (state p) = [sid] /\ In g (elements (state p))
                       /\ is_group g = true /\ el_id g = sid) -> ungroupElements p = p)
  /\ (clipboardRef p = [] -> paste p = p)
  /\ (selectedIds (state p) = [] -> deleteSelected p = p).
Proof.
  repeat split.
  - intros H. unfold undo, dispatch, canvasReducer; rewrite H. apply provider_eta.
  - intros H. unfold groupElements.
    apply Nat.leb_le in H; rewrite H; reflexivity.
  - intros Hn. unfold ungroupElements.
    destruct (selectedIds (state p)) as [|sid [|s2 r]] eqn:Hs; try reflexivity.
    destruct (find_group (elements (state p)) sid) as [g|] eqn:Hf; [|reflexivity].
    exfalso. apply find_some in Hf as [Hin Hg].
    apply andb_prop in Hg as [Hid Hgr].
    apply Hn; exists sid, g; repeat split; auto.
    apply String.eqb_eq; exact Hid.
  - intros H. unfold paste; rewrite H; reflexivity.
  - intros H. unfold deleteSelected; rewrite H; reflexivity.
Qed.

(** The [forEach] loop of [paste], element by element. *)
Lemma pasteItems_spec (cb : list CanvasElement) (offset : Q) : forall seed els ids seed',
  pasteItems cb offset seed = (els, ids, seed') ->
  List.length els = List.length cb
  /\ ids = map el_id els
  /\ seed' = (seed + N.of_nat (List.length cb))%N
  /\ (forall i item, nth_error cb i = Some item ->
        nth_error els i =
          Some (set_xy (set_name (set_id item (createId (seed + N.of_nat i)))
                                 (name (base_of item) ++ " 副本"))
                       (el_x item + offset) (el_y item + offset))).
Proof.
  induction cb as [|item rest IH]; intros seed els ids seed' H; simpl in H.
  - injection H as <- <- <-. repeat split; [rewrite N.add_0_r; reflexivity|].
    intros [|i] it Hi; discriminate.
  - destruct (pasteItems rest offset (N.succ seed)) as [[els' ids'] s''] eqn:Hr.
    injection H as <- <- <-.
    destruct (IH _ _ _ _ Hr) as (Hl & Hids & Hs & Hn).
    repeat split.
    + simpl; rewrite Hl; reflexivity.
    + simpl; rewrite Hids. f_equal.
      unfold el_id, set_xy, set_name, set_id, deepCopy.
      rewrite !base_of_with_base; reflexivity.
    + rewrite Hs; simpl List.length; lia.
    + intros [|i] it Hi; simpl in Hi |- *.
      * injection Hi as <-. rewrite N.add_0_r. reflexivity.
      * rewrite (Hn i it Hi). do 3 f_equal. f_equal. f_equal. lia.
Qed.

Lemma el_fields_pasted (item : CanvasElement) (i : string) (n : string) (nx ny : Q) :
  let e := set_xy (set_name (set_id item i) n) nx ny in
  el_id e = i /\ name (base_of e) = n /\ el_x e = nx /\ el_y e = ny
  /\ el_width e = el_width item /\ el_height e = el_height item.
Proof.
  unfold el_id, el_x, el_y, el_width, el_height, set_xy, set_name, set_id.
  rewrite !base_of_with_base; simpl; repeat split.
Qed.

(** C9. [paste] with a non-empty clipboard and paste counter [k]: the document
    gains, after the unchanged old elements, one element per clipboard entry,
    in order, equal to the entry except for a new id, the name suffixed with
    [" 副本"] and the position moved by [20 * k] on both axes; the new ids are
    pairwise distinct and drawn from the id source, which moves past them;
    the selection is exactly the new ids, the counter becomes [k + 1], and
    one history entry (the elements before the paste) is pushed, which clears
    the redo stack. *)
Theorem paste_semantics (p : Provider) :
  clipboardRef p <> [] ->
  let k := pasteCountRef p in
  let cb := clipboardRef p in
  let p' := paste p in
  exists newElements,
    elements (state p') = elements (state p) ++ newElements
    /\ List.length newElements = List.length cb
    /\ (forall i item, nth_error cb i = Some item ->
          nth_error newElements i =
            Some (set_xy (set_name (set_id item (createId (idSeed p + N.of_nat i)))
                                   (name (base_of item) ++ " 副本"))
                         (el_x item + inject_Z (20 * k)) (el_y item + inject_Z (20 * k))))
    /\ (forall i item e, nth_error cb i = Some item -> nth_error newElements i = Some e ->
          el_id e = createId (idSeed p + N.of_nat i)
          /\ name (base_of e) = (name (base_of item) ++ " 副本")%string
          /\ el_x e = el_x item + inject_Z (20 * k)
          /\ el_y e = el_y item + inject_Z (20 * k))
    /\ NoDup (map el_id newElements)
    /\ idSeed p' = (idSeed p + N.of_nat (List.length cb))%N
    /\ selectedIds (state p') = map el_id newElements
    /\ pasteCountRef p' = (k + 1)%Z
    /\ history (state p') = history (state p) ++ [elements (state p)]
    /\ redoStack (state p') = []
    /\ clipboardRef p' = cb.
Proof.
  intros Hne k cb p'. subst k cb p'.
  unfold paste.
  destruct (clipboardRef p) as [|c0 cr] eqn:Hcb; [congruence|].
  destruct (pasteItems (c0 :: cr) (inject_Z (20 * pasteCountRef p)) (idSeed p))
    as [[els ids] seed'] eqn:Hp.
  destruct (pasteItems_spec _ _ _ _ _ _ Hp) as (Hl & Hids & Hs & Hn).
  exists els; simpl.
  split; [reflexivity|]. split; [exact Hl|]. split; [exact Hn|].
  split; [|split; [|split; [|split; [|split; [|split; [|split; [|split]]]]]]];
    try reflexivity.
  - intros i item e Hi He. rewrite (Hn i item Hi) in He. injection He as <-.
    destruct (el_fields_pasted item (createId (idSeed p + N.of_nat i))
                ((name (base_of item) ++ " 副本")%string)
                (el_x item + inject_Z (20 * pasteCountRef p))
                (el_y item + inject_Z (20 * pasteCountRef p))) as (H1 & H2 & H3 & H4 & _).
    repeat split; assumption.
  - apply NoDup_nth_error. intros i j Hi Hij.
    rewrite length_map in Hi.
    assert (Hid : forall m, (m < List.length els)%nat ->
              nth_error (map el_id els) m = Some (createId (idSeed p + N.of_nat m))).
    { intros m Hm. rewrite nth_error_map.
      rewrite Hl in Hm. apply nth_error_Some in Hm.
      destruct (nth_error (c0 :: cr) m) as [it|] eqn:Hit; [|congruence].
      rewrite (Hn m it Hit); simpl.
      unfold el_id, set_xy, set_name, set_id; rewrite !base_of_with_base; reflexivity. }
    rewrite (Hid i Hi) in Hij.
    destruct (Nat.lt_ge_cases j (List.length els)) as [Hj|Hj].
    + rewrite (Hid j Hj) in Hij.
      assert (Hc : createId (idSeed p + N.of_nat i) = createId (idSeed p + N.of_nat j))
        by congruence.
      apply createId_inj in Hc. lia.
    + assert (nth_error (map el_id els) j = None)
        by (apply nth_error_None; rewrite length_map; exact Hj).
      congruence.
  - exact Hs.
  - rewrite Hids; reflexivity.
Qed.

(** ** Grouping facts *)

Lemma is_group_with_base (e : CanvasElement) (b : ElementBase) :
  is_group (with_base e b) = is_group e.
Proof. destruct e; reflexivity. Qed.

Lemma bbox_fold_some (l : list CanvasElement) : forall t,
  exists t', fold_left bbox_step l (Some t) = Some t'.
Proof.
  induction l as [|e l IH]; intros t; simpl; [eauto|].
  destruct t as [[[a b] c] d]; apply IH.
Qed.

Lemma bbox_some (l : list CanvasElement) :
  l <> [] -> exists minX minY maxX maxY, bbox l = Some (minX, minY, maxX, maxY).
Proof.
  intros Hne; destruct l as [|e l]; [congruence|].
  unfold bbox; simpl.
  destruct (bbox_fold_some l (el_x e, el_y e, el_x e + el_width e, el_y e + el_height e))
    as [[[[a b] c] d] H].
  rewrite H; eauto.
Qed.

(** [processChildren] over children none of which is a group: each is copied
    with the parent's offset added and a new id, in order. *)
Lemma processChildren_flat (kids : list CanvasElement) (px0 py0 : Q) : forall acc,
  Forall (fun c => is_group c = false) kids ->
  exists out,
    groupChildren (processChildren kids px0 py0 acc) = groupChildren acc ++ out
    /\ newIds (processChildren kids px0 py0 acc) = newIds acc ++ map el_id out
    /\ Forall2 (fun c o => el_x o = el_x c + px0 /\ el_y o = el_y c + py0
                           /\ el_width o = el_width c /\ el_height o = el_height c
                           /\ name (base_of o) = name (base_of c)) kids out.
Proof.
  induction kids as [|c r IH]; intros acc Hf.
  - exists []; simpl; rewrite !app_nil_r; repeat split; constructor.
  - inversion Hf as [|c' r' Hc Hr]; subst.
    set (o := set_id (set_xy c (el_x c + px0) (el_y c + py0)) (createId (accSeed acc))).
    assert (Hstep : processChild c px0 py0 acc
                    = mkAcc (groupChildren acc ++ [o]) (newIds acc ++ [el_id o])
                            (N.succ (accSeed acc))).
    { destruct c; try discriminate; simpl; unfold o, el_id, set_id, set_xy, deepCopy;
        rewrite !base_of_with_base; reflexivity. }
    simpl; rewrite Hstep.
    destruct (IH (mkAcc (groupChildren acc ++ [o]) (newIds acc ++ [el_id o])
                        (N.succ (accSeed acc))) Hr) as (out & Hg & Hn & Hfa).
    exists (o :: out); simpl in Hg, Hn |- *.
    rewrite Hg, Hn, <- !app_assoc; repeat split; try reflexivity.
    constructor; [|exact Hfa].
    unfold o, el_x, el_y, el_width, el_height, set_id, set_xy.
    rewrite !base_of_with_base; simpl; repeat split.
Qed.

Lemma filter_keep_all {A : Type} (f : A -> bool) (l : list A) :
  (forall a, In a l -> f a = true) -> filter f l = l.
Proof.
  induction l as [|a l IH]; intros H; simpl; [reflexivity|].
  rewrite (H a (or_introl eq_refl)), IH; [reflexivity|]. intros b Hb; apply H; right; exact Hb.
Qed.


Lemma find_app_l {A : Type} (f : A -> bool) (l1 l2 : list A) :
  (forall a, In a l1 -> f a = false) -> find f (l1 ++ l2) = find f l2.
Proof.
  induction l1 as [|a l1 IH]; intros H; simpl; [reflexivity|].
  rewrite (H a (or_introl eq_refl)). apply IH. intros b Hb; apply H; right; exact Hb.
Qed.
(** C6. Group then ungroup: with at least two ids selected, the live selected
    elements [S] non-empty and none of them a group, and the id drawn for the
    group not already in use, [ungroupElements (groupElements p)] leaves the
    unselected elements in place and appends copies of [S], in order, with the
    same absolute [x], [y] (as numbers), [width], [height] and name (only the id
    changes), and selects exactly those copies. *)
Theorem group_ungroup_roundtrip (p : Provider) :
  let sel := selectedIds (state p) in
  let S := filter (fun el => includes sel (el_id el)) (elements (state p)) in
  (2 <= List.length sel)%nat ->
  S <> [] ->
  Forall (fun el => is_group el = false) S ->
  ~ In (createId (idSeed p)) (map el_id (elements (state p))) ->
  let p' := ungroupElements (groupElements p) in
  exists out,
    elements (state p')
      = filter (fun el => negb (includes sel (el_id el))) (elements (state p)) ++ out
    /\ Forall2 (fun a b => el_x b == el_x a /\ el_y b == el_y a
                           /\ el_width b = el_width a /\ el_height b = el_height a
                           /\ name (base_of b) = name (base_of a)) S out
    /\ selectedIds (state p') = map el_id out.
Proof.
  intros sel S Hlen HS Hflat Hfresh p'. subst p'.
  destruct (bbox_some S HS) as (minX & minY & maxX & maxY & Hb).
  unfold groupElements.
  assert (Hleb : Nat.leb (List.length (selectedIds (state p))) 1 = false)
    by (apply Nat.leb_gt; unfold sel in Hlen; lia).
  rewrite Hleb. fold sel. fold S. rewrite Hb.
  cbn [nextId].
  set (gid := createId (idSeed p)).
  set (kids := map (fun el => set_xy (deepCopy el) (el_x el - minX) (el_y el - minY)) S).
  set (rest := filter (fun el => negb (includes sel (el_id el))) (elements (state p))).
  match goal with |- context [GroupElement ?gb kids] => set (group := GroupElement gb kids) end.
  match goal with |- context [ungroupElements ?q] => remember q as q0 eqn:Hq0 end.
  assert (Hq : elements (state q0) = rest ++ [group] /\ selectedIds (state q0) = [gid]
               /\ idSeed q0 = N.succ (idSeed p)) by (subst q0; repeat split).
  clear Hq0. destruct q0 as [[qe qs qz qp qm qh qr] qc qk qi]; simpl in Hq.
  destruct Hq as (-> & -> & ->).
  assert (Hrest : forall el, In el rest -> String.eqb (el_id el) gid = false).
  { intros el Hin. apply String.eqb_neq. intros Heq. apply Hfresh.
    apply filter_In in Hin as [Hin _]. fold gid. rewrite <- Heq. apply in_map; exact Hin. }
  assert (Hfind : find_group (rest ++ [group]) gid = Some group).
  { unfold find_group. rewrite find_app_l.
    - simpl. rewrite String.eqb_refl. reflexivity.
    - intros a Ha. rewrite (Hrest a Ha). reflexivity. }
  unfold ungroupElements; simpl state; simpl selectedIds; simpl elements.
  rewrite Hfind. unfold group at 1.
  assert (Hkids : Forall (fun c => is_group c = false) kids).
  { unfold kids. apply Forall_map. eapply Forall_impl; [|exact Hflat].
    intros a Ha; unfold set_xy; rewrite is_group_with_base; exact Ha. }
  destruct (processChildren_flat kids minX minY (mkAcc [] [] (N.succ (idSeed p))) Hkids)
    as (out & Hg & Hn & Hfa).
  simpl in Hg, Hn.
  exists out. cbn [state dispatch mutateElements canvasReducer elements selectedIds x y
    opt_recordHistory opt_historySnapshot noOptions deepCopy].
  split; [|split].
  - rewrite Hg, filter_app. cbn [id]. rewrite filter_keep_all.
    + simpl. rewrite String.eqb_refl. simpl. rewrite app_nil_r. reflexivity.
    + intros a Ha. rewrite (Hrest a Ha). reflexivity.
  - unfold kids in Hfa. clear -Hfa.
    revert out Hfa; induction S as [|s S IH]; intros out Hfa; simpl in Hfa; inversion Hfa; subst;
      constructor; [|apply IH; assumption].
    destruct H1 as (E1 & E2 & E3 & E4 & E5).
    unfold set_xy, deepCopy, el_x, el_y, el_width, el_height in *.
    rewrite base_of_with_base in *; simpl in *.
    rewrite E1, E2, E3, E4, E5. split; [ring|split; [ring|repeat split]].
  - unfold group; simpl. exact Hn.
Qed.

(** ** Resize facts *)

(** The four updates of [newBounds]: a dragged extent is clamped at 0, an
    undragged one is the start one, and a [w]/[n] drag keeps the opposite
    edge in place. *)
Lemma computeNewBounds_props (dir : ResizeDirection) (sb : Rect) (dx dy : Q) :
  let nb := computeNewBounds dir sb dx dy in
  ((dir_includes dir "e"%char || dir_includes dir "w"%char)%bool = true -> 0 <= rw nb)
  /\ ((dir_includes dir "n"%char || dir_includes dir "s"%char)%bool = true -> 0 <= rh nb)
  /\ (0 <= rw sb -> 0 <= rw nb) /\ (0 <= rh sb -> 0 <= rh nb)
  /\ (dir_includes dir "w"%char = false -> rx nb = rx sb)
  /\ (dir_includes dir "n"%char = false -> ry nb = ry sb)
  /\ (dir_includes dir "w"%char = true -> rx nb + rw nb == rx sb + rw sb)
  /\ (dir_includes dir "n"%char = true -> ry nb + rh nb == ry sb + rh sb).
Proof.
  intros nb; unfold nb, computeNewBounds, MIN_ELEMENT_SIZE.
  destruct dir; cbn -[Qmax Qplus Qminus];
    repeat split; intros; try discriminate; try apply Q.le_max_l; try assumption;
    try reflexivity; try ring.
Qed.

Lemma resizeElement_selected (info : ResizeInfo) (dx dy : Q) (el s : CanvasElement) :
  includes (ri_ids info) (el_id el) = true -> startElements info (el_id el) = Some s ->
  let sb := startBounds info in
  let nb := computeNewBounds (direction info) sb dx dy in
  let sX := scaleOf (rw nb) (rw sb) in
  let sY := scaleOf (rh nb) (rh sb) in
  let el' := resizeElement info dx dy el in
  el_id el' = el_id el
  /\ el_x el' = rx nb + (el_x s - rx sb) * sX
  /\ el_y el' = ry nb + (el_y s - ry sb) * sY
  /\ el_width el' = Qmax 0 (el_width s * sX)
  /\ el_height el' = Qmax 0 (el_height s * sY).
Proof.
  intros H1 H2 sb nb sX sY el'. unfold el', resizeElement. rewrite H1, H2. simpl negb.
  cbv iota. unfold set_geom, el_id, el_x, el_y, el_width, el_height.
  rewrite !base_of_with_base. repeat split.
Qed.

Lemma performResize_elements (p : Provider) (info : ResizeInfo) (dx dy : Q) :
  elements (state (performResize p info dx dy))
  = map (resizeElement info dx dy) (elements (state p)).
Proof. reflexivity. Qed.

Lemma scaleOf_pos (n s : Q) : 0 < s -> scaleOf n s = n / s.
Proof.
  intros Hs. unfold scaleOf.
  destruct (Qle_bool s 0) eqn:E; [|reflexivity].
  apply Qle_bool_iff in E. exfalso. apply (Qlt_not_le _ _ Hs E).
Qed.

Lemma scaleOf_nonneg (n s : Q) : 0 <= n -> 0 <= scaleOf n s.
Proof.
  intros Hn. unfold scaleOf.
  destruct (Qle_bool s 0) eqn:E; [discriminate|].
  apply Qle_shift_div_l.
  - apply Qnot_le_lt. intros C. apply Qle_bool_iff in C. congruence.
  - rewrite Qmult_0_l; exact Hn.
Qed.

(** C7. Resize clamp. Every element [performResize] rescales (its id is
    targeted and has a start snapshot) gets a width and a height of at least 0,
    whatever the drag. The new bounding box has a width of at least 0 whenever
    an [e] or [w] handle is dragged, and a height of at least 0 whenever an
    [n] or [s] handle is; an extent no handle drags keeps its start value, so it
    is at least 0 when it started so. Only a [w] handle moves the box's [x] and
    only an [n] handle its [y]. On a single element of width 50 at x = 10, an
    [e] drag of -60 (a width of -10 unclamped) gives width 0 and leaves x at 10. *)
Theorem resize_clamp (p : Provider) (info : ResizeInfo) (dx dy : Q) :
  let sb := startBounds info in
  let dir := direction info in
  let nb := computeNewBounds dir sb dx dy in
  (forall el s, In el (elements (state p)) ->
     includes (ri_ids info) (el_id el) = true -> startElements info (el_id el) = Some s ->
     In (resizeElement info dx dy el) (elements (state (performResize p info dx dy)))
     /\ 0 <= el_width (resizeElement info dx dy el)
     /\ 0 <= el_height (resizeElement info dx dy el))
  /\ ((dir_includes dir "e"%char || dir_includes dir "w"%char)%bool = true -> 0 <= rw nb)
  /\ ((dir_includes dir "n"%char || dir_includes dir "s"%char)%bool = true -> 0 <= rh nb)
  /\ (0 <= rw sb -> 0 <= rw nb) /\ (0 <= rh sb -> 0 <= rh nb)
  /\ (dir_includes dir "w"%char = false -> rx nb = rx sb)
  /\ (dir_includes dir "n"%char = false -> ry nb = ry sb)
  /\ (exists info0,
        handleResizeStart (state eHandleDoc) ["E"%string] dir_e = Some info0
        /\ rw (startBounds info0) + (-60) == -10
        /\ Forall (fun el => el_width el == 0 /\ el_x el == 10)
             (elements (state (performResize eHandleDoc info0 (-60) 0)))).
Proof.
  intros sb dir nb.
  destruct (computeNewBounds_props dir sb dx dy) as (B1 & B2 & B3 & B4 & B5 & B6 & _ & _).
  split; [|split; [exact B1|split; [exact B2|split; [exact B3|split; [exact B4|
    split; [exact B5|split; [exact B6|]]]]]]].
  - intros el s Hin H1 H2.
    destruct (resizeElement_selected info dx dy el s H1 H2) as (_ & _ & _ & Hw & Hh).
    split; [rewrite performResize_elements; apply in_map; exact Hin|].
    rewrite Hw, Hh. split; apply Q.le_max_l.
  - eexists; split; [reflexivity|]. split.
    + unfold Qeq; vm_compute; reflexivity.
    + vm_compute. repeat constructor.
Qed.

(** C5, as the code has it. With [sX] the ratio of the new to the start
    bounding-box width when the start width is positive (1 otherwise), and [sY]
    the same for heights, every element [performResize] rescales gets
    [x = newBounds.x + (start x - startBounds.x) * sX] (the same for [y]) and
    width [max(0, start width * sX)] (the same for height). That is
    [start width * sX] when the element started with a width of at least 0.
    On A at (0,0,50,50) and B at (50,50,50,50), an [se] drag of (100,100)
    takes the box (0,0,100,100) to (0,0,200,200), A to (0,0,100,100) and B to
    (100,100,100,100). *)
Theorem resize_proportional (p : Provider) (info : ResizeInfo) (dx dy : Q) :
  let sb := startBounds info in
  let nb := computeNewBounds (direction info) sb dx dy in
  let sX := scaleOf (rw nb) (rw sb) in
  let sY := scaleOf (rh nb) (rh sb) in
  (0 < rw sb -> sX = rw nb / rw sb) /\ (0 < rh sb -> sY = rh nb / rh sb)
  /\ (forall el s, In el (elements (state p)) ->
        includes (ri_ids info) (el_id el) = true -> startElements info (el_id el) = Some s ->
        let el' := resizeElement info dx dy el in
        In el' (elements (state (performResize p info dx dy)))
        /\ el_id el' = el_id el
        /\ el_x el' = rx nb + (el_x s - rx sb) * sX
        /\ el_y el' = ry nb + (el_y s - ry sb) * sY
        /\ el_width el' = Qmax 0 (el_width s * sX)
        /\ el_height el' = Qmax 0 (el_height s * sY)
        /\ (0 <= rw sb -> 0 <= el_width s -> el_width el' == el_width s * sX)
        /\ (0 <= rh sb -> 0 <= el_height s -> el_height el' == el_height s * sY))
  /\ (exists info0,
        handleResizeStart (state abDoc) ["A"%string; "B"%string] dir_se = Some info0
        /\ rectEq (startBounds info0) (mkRect 0 0 100 100)
        /\ rectEq (computeNewBounds dir_se (startBounds info0) 100 100) (mkRect 0 0 200 200)
        /\ Forall2 rectEq (map elemRect (elements (state (performResize abDoc info0 100 100))))
             [mkRect 0 0 100 100; mkRect 100 100 100 100]).
Proof.
  intros sb nb sX sY.
  destruct (computeNewBounds_props (direction info) sb dx dy) as (_ & _ & B3 & B4 & _).
  split; [intros H; apply scaleOf_pos; exact H|].
  split; [intros H; apply scaleOf_pos; exact H|].
  split.
  - intros el s Hin H1 H2 el'.
    destruct (resizeElement_selected info dx dy el s H1 H2) as (Hi & Hx & Hy & Hw & Hh).
    fold sb nb sX sY el' in Hi, Hx, Hy, Hw, Hh.
    split; [rewrite performResize_elements; apply in_map; exact Hin|].
    do 5 (split; [assumption|]).
    split; intros Hsb Hs.
    + rewrite Hw. apply Q.max_r. apply Qmult_le_0_compat; [exact Hs|].
      apply scaleOf_nonneg, B3, Hsb.
    + rewrite Hh. apply Q.max_r. apply Qmult_le_0_compat; [exact Hs|].
      apply scaleOf_nonneg, B4, Hsb.
  - eexists; split; [reflexivity|].
    unfold rectEq, Qeq; vm_compute; repeat constructor.
Qed.

(** C5, counterexample to [newWidth = startWidth * scaleX]. A of width -10
    and B of width 100 are selected; their box is (0,0,100,100), which has
    positive extents. An [se] drag of (100,100) doubles the box to
    (0,0,200,200), so the formula gives A the width -20. The code clamps it
    to 0. *)
Lemma resize_negative_width_clamped :
  exists info0,
    handleResizeStart (state negWidthDoc) ["A"%string; "B"%string] dir_se = Some info0
    /\ rectEq (startBounds info0) (mkRect 0 0 100 100)
    /\ rectEq (computeNewBounds dir_se (startBounds info0) 100 100) (mkRect 0 0 200 200)
    /\ match elements (state (performResize negWidthDoc info0 100 100)) with
       | a' :: _ =>
           el_width a' == 0
           /\ ~ (el_width a' == (-10) * (rw (computeNewBounds dir_se (startBounds info0) 100 100)
                                         / rw (startBounds info0)))
       | [] => False
       end.
Proof.
  eexists; split; [reflexivity|].
  unfold rectEq, Qeq; vm_compute. repeat split; try reflexivity. discriminate.
Qed.

(** ** Ungroup facts *)

Lemma processChildren_inner (X Y : Q) (l : list CanvasElement) : forall acc,
  (fix pc (l : list CanvasElement) (acc : UngroupAcc) : UngroupAcc :=
     match l with
     | [] => acc
     | c :: r => pc r (processChild c X Y acc)
     end) l acc = processChildren l X Y acc.
Proof. induction l as [|c r IH]; intros acc; simpl; [reflexivity|apply IH]. Qed.

Lemma processChild_group (b : ElementBase) (kids : list CanvasElement) (ox oy : Q)
    (acc : UngroupAcc) :
  processChild (GroupElement b kids) ox oy acc
  = processChildren kids (x b + ox) (y b + oy)
      (mkAcc (groupChildren acc) (newIds acc ++ [createId (accSeed acc)])
         (N.succ (accSeed acc))).
Proof. cbn [processChild]. apply processChildren_inner. Qed.

Lemma leafCopies_group (b : ElementBase) (kids : list CanvasElement) (ox oy : Q) :
  leafCopies (GroupElement b kids) ox oy
  = flat_map (fun k => leafCopies k (x b + ox) (y b + oy)) kids.
Proof. induction kids as [|k r IH]; [reflexivity|]. simpl. apply f_equal. exact IH. Qed.

Lemma freshIds_app (m1 m2 : nat) : forall s,
  freshIds s (m1 + m2) = freshIds s m1 ++ freshIds (s + N.of_nat m1) m2.
Proof.
  induction m1 as [|m1 IH]; intros s; simpl.
  - rewrite N.add_0_r; reflexivity.
  - rewrite IH. f_equal. f_equal. f_equal. lia.
Qed.

Lemma in_freshIds (s t : N) (m : nat) :
  In (createId t) (freshIds s m) -> (s <= t < s + N.of_nat m)%N.
Proof.
  revert s; induction m as [|m IH]; intros s H; simpl in H; [contradiction|].
  destruct H as [H|H].
  - apply createId_inj in H; lia.
  - apply IH in H; lia.
Qed.

Lemma freshIds_NoDup (m : nat) : forall s, NoDup (freshIds s m).
Proof.
  induction m as [|m IH]; intros s; simpl; constructor; [|apply IH].
  intros H. apply in_freshIds in H. lia.
Qed.

Lemma incl_freshIds_app_l (s : N) (m1 m2 : nat) :
  incl (freshIds s m1) (freshIds s (m1 + m2)).
Proof. rewrite freshIds_app. apply incl_appl, incl_refl. Qed.

Lemma incl_freshIds_app_r (s : N) (m1 m2 : nat) :
  incl (freshIds (s + N.of_nat m1) m2) (freshIds s (m1 + m2)).
Proof. rewrite freshIds_app. apply incl_appr, incl_refl. Qed.

(** [processChildren] on any tree: the non-group descendants are appended,
    in depth-first order, as copies at absolute coordinates; one id is drawn
    per node, group or not, and pushed to [newIds]. *)
Lemma processChildren_spec (n : nat) : forall kids ox oy acc,
  (list_sum (map el_size kids) < n)%nat ->
  exists out m,
    groupChildren (processChildren kids ox oy acc) = groupChildren acc ++ out
    /\ Forall2 leafRel (flat_map (fun k => leafCopies k ox oy) kids) out
    /\ newIds (processChildren kids ox oy acc) = newIds acc ++ freshIds (accSeed acc) m
    /\ accSeed (processChildren kids ox oy acc) = (accSeed acc + N.of_nat m)%N
    /\ incl (map el_id out) (freshIds (accSeed acc) m).
Proof.
  induction n as [|n IHn]; intros kids ox oy acc Hs; [lia|].
  destruct kids as [|k r].
  - exists [], O; simpl; rewrite !app_nil_r, N.add_0_r.
    repeat split; [constructor|intros a []].
  - simpl in Hs.
    assert (Hk : exists outk mk,
      groupChildren (processChild k ox oy acc) = groupChildren acc ++ outk
      /\ Forall2 leafRel (leafCopies k ox oy) outk
      /\ newIds (processChild k ox oy acc) = newIds acc ++ freshIds (accSeed acc) mk
      /\ accSeed (processChild k ox oy acc) = (accSeed acc + N.of_nat mk)%N
      /\ incl (map el_id outk) (freshIds (accSeed acc) mk)).
    { destruct k as [b ? ? ? ? ?|b ? ? ? ? ? ? ? ?|b ? ? ?|b kids'].
      4: {
        rewrite processChild_group, leafCopies_group.
        simpl el_size in Hs.
        destruct (IHn kids' (x b + ox) (y b + oy)
                    (mkAcc (groupChildren acc) (newIds acc ++ [createId (accSeed acc)])
                       (N.succ (accSeed acc))) ltac:(lia))
          as (out & m & G & F & I & A & Inc).
        simpl in G, I, A, Inc.
        exists out, (S m). repeat split.
        - exact G.
        - exact F.
        - rewrite I, <- app_assoc. reflexivity.
        - rewrite A. lia.
        - intros a Ha. right. apply Inc, Ha. }
      all: eexists [_], 1%nat; simpl; rewrite ?N.add_1_r;
        repeat split; [constructor; [|constructor] | intros a [<-|[]]; left];
        unfold leafRel, el_x, el_y, el_width, el_height, set_id, set_xy, deepCopy;
        simpl; repeat split. }
    destruct Hk as (outk & mk & G1 & F1 & I1 & A1 & Inc1).
    simpl processChildren.
    destruct (IHn r ox oy (processChild k ox oy acc) ltac:(destruct k; simpl in Hs |- *; lia))
      as (outr & mr & G2 & F2 & I2 & A2 & Inc2).
    exists (outk ++ outr), (mk + mr)%nat.
    rewrite A1 in I2, A2, Inc2.
    repeat split.
    + rewrite G2, G1, app_assoc. reflexivity.
    + simpl. apply Forall2_app; assumption.
    + rewrite I2, I1, freshIds_app, app_assoc. reflexivity.
    + rewrite A2. lia.
    + rewrite map_app. apply incl_app.
      * eapply incl_tran; [exact Inc1|apply incl_freshIds_app_l].
      * eapply incl_tran; [exact Inc2|apply incl_freshIds_app_r].
Qed.

Lemma el_id_set_id (e : CanvasElement) (i : string) : el_id (set_id e i) = i.
Proof. destruct e; reflexivity. Qed.

(** The ids of the elements collected by [processChildren] are distinct and
    freshly drawn. *)
Lemma processChildren_ids (s0 : N) (n : nat) : forall kids ox oy acc,
  (list_sum (map el_size kids) < n)%nat -> gcOk s0 acc ->
  gcOk s0 (processChildren kids ox oy acc).
Proof.
  induction n as [|n IHn]; intros kids ox oy acc Hs G; [lia|].
  destruct kids as [|k r]; [exact G|].
  simpl in Hs. simpl processChildren.
  apply IHn; [destruct k; simpl in Hs |- *; lia|].
  destruct k as [b ? ? ? ? ?|b ? ? ? ? ? ? ? ?|b ? ? ?|b kids'].
  4: { rewrite processChild_group. simpl el_size in Hs.
       apply IHn; [lia|]. destruct G as (G1 & G2 & G3). unfold gcOk; cbn [accSeed groupChildren].
       split; [lia|split; [exact G2|]]. intros i Hi.
       destruct (G3 i Hi) as (k & Hk & ->). exists k; split; [lia|reflexivity]. }
  all: destruct G as (G1 & G2 & G3); unfold gcOk; cbn [processChild groupChildren accSeed];
    split; [lia|]; rewrite map_app; cbn [map]; rewrite el_id_set_id; split;
    [apply NoDup_app; [exact G2|repeat constructor; intros []|];
     intros a Ha [<-|[]]; destruct (G3 _ Ha) as (k & Hk & E); apply createId_inj in E; lia|];
    intros i Hi; apply in_app_or in Hi as [Hi|[<-|[]]];
    [destruct (G3 i Hi) as (k & Hk & ->); exists k; split; [lia|reflexivity]
    |exists (accSeed acc); split; [lia|reflexivity]].
Qed.

(** C2, as the code has it. When the selection is exactly one id and the
    first element with that id is a group, [ungroupElements] works as follows.
    It removes every element with the group's id and appends [out]. [out]
    holds the group's non-group descendants, at any depth, in depth-first
    order. Each copy in [out] keeps its width, height and name. Its [x]/[y]
    is its stored one plus the offsets of all its enclosing groups, up to and
    including the ungrouped one. No element of [out] is a group: nested
    sub-groups are flattened. The elements of [out] carry pairwise distinct
    fresh ids ([createId] of seeds drawn by the call), and every one of them is
    selected. The call records one history entry and clears the redo stack. *)
Theorem ungroup_flattens (p : Provider) (sid : string) (gb : ElementBase)
    (kids : list CanvasElement) :
  selectedIds (state p) = [sid] ->
  find_group (elements (state p)) sid = Some (GroupElement gb kids) ->
  let p' := ungroupElements p in
  exists out m,
    elements (state p')
      = filter (fun el => negb (String.eqb (el_id el) (id gb))) (elements (state p)) ++ out
    /\ Forall2 leafRel (flat_map (fun k => leafCopies k (x gb) (y gb)) kids) out
    /\ Forall (fun el => is_group el = false) out
    /\ NoDup (map el_id out)
    /\ incl (map el_id out) (freshIds (idSeed p) m)
    /\ incl (map el_id out) (selectedIds (state p'))
    /\ idSeed p' = (idSeed p + N.of_nat m)%N
    /\ history (state p') = history (state p) ++ [elements (state p)]
    /\ redoStack (state p') = [].
Proof.
  intros Hsel Hfind p'. unfold p', ungroupElements. rewrite Hsel, Hfind.
  destruct (processChildren_spec (S (list_sum (map el_size kids))) kids (x gb) (y gb)
              (mkAcc [] [] (idSeed p)) ltac:(lia)) as (out & m & G & F & I & A & Inc).
  pose proof (processChildren_ids (idSeed p) (S (list_sum (map el_size kids))) kids
                (x gb) (y gb) (mkAcc [] [] (idSeed p)) ltac:(lia)
                ltac:(unfold gcOk; cbn [accSeed groupChildren map];
                      split; [lia|split; [constructor|intros i []]])) as (_ & Nd & _).
  rewrite G in Nd.
  simpl in G, I, A, Inc.
  exists out, m. cbn [state dispatch mutateElements canvasReducer elements selectedIds
    opt_recordHistory opt_historySnapshot noOptions deepCopy history redoStack idSeed].
  rewrite G, I, A.
  repeat split; try assumption; try reflexivity.
  clear -F. revert F. generalize (flat_map (fun k => leafCopies k (x gb) (y gb)) kids).
  intros l F. induction F as [|[[c ox] oy] o l out' Hr _ IH]; constructor; [|exact IH].
  apply Hr.
Qed.

(** C2, counterexample to "the nested sub-group remains present as a group".
    Ungrouping G, which holds a shape A and a group H holding a shape B, leaves
    only two shapes: A at (110,110) and B at (135,145). No group is left in the
    document. H's new id [uuid-1] is selected but names no element. *)
Lemma ungroup_nested_group_not_kept :
  let els := elements (state (ungroupElements nestedGroupDoc)) in
  map el_id els = ["uuid-0"%string; "uuid-2"%string]
  /\ Forall (fun el => is_group el = false) els
  /\ ~ (exists g, In g els /\ is_group g = true)
  /\ selectedIds (state (ungroupElements nestedGroupDoc))
     = ["uuid-0"%string; "uuid-1"%string; "uuid-2"%string]
  /\ map elemRect els = [mkRect 110 110 20 20; mkRect 135 145 10 10].
Proof.
  intros els. vm_compute in els.
  split; [reflexivity|]. split; [repeat constructor|].
  split; [|split; reflexivity].
  intros (g & Hin & Hg). unfold els in Hin. simpl in Hin.
  destruct Hin as [<-|[<-|[]]]; discriminate.
Qed.

(** ** A reachable selection that names a missing element *)

(** C3, failing input. Start from the initial provider. Add three shapes.
    Group the first two, then group that group with the third, and ungroup the
    outer group. The selection now holds [uuid-6], the new id drawn for the
    inner group. [processChildren] pushes it to [newIds] but appends no element
    with that id. *)
Theorem ungroup_selects_missing_id :
  In "uuid-6"%string (selectedIds (state nestedUngroupTrace))
  /\ ~ In "uuid-6"%string (map el_id (elements (state nestedUngroupTrace))).
Proof.
  vm_compute. split.
  - right; left; reflexivity.
  - intros [H|[H|[H|[]]]]; discriminate.
Qed.

(** ** Marquee selection under a pan *)

(** C4, failing input. E at (0,0,100,100) is viewed at zoom 1 after a pan by
    (300,300). A marquee is dragged from (150,150) to (50,50) in document
    coordinates. Its start point lies outside E (on the screen at (450,450),
    past E's box (300,300)-(400,400)), so the drag begins on empty canvas. The
    rectangle it spans overlaps E, so the specified rule selects E.
    [stopInteractions] compares the marquee's world-space bounds (shifted by
    the pan) against E's document-space box. For a stroke pad of 0 or 1/2 it
    finds no overlap and clears the selection. *)
Theorem marquee_panned_misses_element :
  rx (elemRect (rectEl "E"%string 0 0 100 100)) + rw (elemRect (rectEl "E"%string 0 0 100 100))
    < px (mkPoint 150 150)
  /\ ry (elemRect (rectEl "E"%string 0 0 100 100)) + rh (elemRect (rectEl "E"%string 0 0 100 100))
    < py (mkPoint 150 150)
  /\ marqueeSpecSelects (mkPoint 150 150) (mkPoint 50 50) (rectEl "E"%string 0 0 100 100) = true
  /\ selectedIds (state (marqueeRelease pannedDoc 0 (mkPoint 150 150) (mkPoint 50 50))) = []
  /\ selectedIds (state (marqueeRelease pannedDoc (1#2) (mkPoint 150 150) (mkPoint 50 50)))
     = [].
Proof. vm_compute. repeat split. Qed.

(** ** Instances of the theorems with hypotheses *)

(** [History.undo_redo_inverse] on the two recorded appends, one step back. *)
Lemma undo_redo_inverse_witness :
  (1 <= List.length sampleUpdaters)%nat
  /\ elements (state (Nat.iter 1 undo (History.applyMutations initialProvider sampleUpdaters)))
     = elements (state (History.applyMutations initialProvider
                          (firstn (List.length sampleUpdaters - 1) sampleUpdaters)))
  /\ elements (state (Nat.iter 1 redo (Nat.iter (List.length sampleUpdaters) undo
                       (History.applyMutations initialProvider sampleUpdaters))))
     = elements (state (History.applyMutations initialProvider (firstn 1 sampleUpdaters))).
Proof.
  split; [simpl; lia|].
  apply (History.undo_redo_inverse initialProvider sampleUpdaters 1). simpl; lia.
Defined.

(** [group_ungroup_roundtrip] on A(10,10,20,20) and B(50,10,10,10). *)
Lemma group_ungroup_roundtrip_witness :
  let sel := selectedIds (state groupDoc) in
  let S := filter (fun el => includes sel (el_id el)) (elements (state groupDoc)) in
  ((2 <= List.length sel)%nat
   /\ S <> []
   /\ Forall (fun el => is_group el = false) S
   /\ ~ In (createId (idSeed groupDoc)) (map el_id (elements (state groupDoc))))
  /\ exists out,
       elements (state (ungroupElements (groupElements groupDoc)))
         = filter (fun el => negb (includes sel (el_id el))) (elements (state groupDoc)) ++ out
       /\ Forall2 (fun a b => el_x b == el_x a /\ el_y b == el_y a
                              /\ el_width b = el_width a /\ el_height b = el_height a
                              /\ name (base_of b) = name (base_of a)) S out
       /\ selectedIds (state (ungroupElements (groupElements groupDoc))) = map el_id out.
Proof.
  intros sel S.
  assert (H1 : (2 <= List.length sel)%nat) by (vm_compute; lia).
  assert (H2 : S <> []) by (vm_compute; discriminate).
  assert (H3 : Forall (fun el => is_group el = false) S) by (vm_compute; repeat constructor).
  assert (H4 : ~ In (createId (idSeed groupDoc)) (map el_id (elements (state groupDoc))))
    by (vm_compute; intros [H|[H|[]]]; discriminate).
  split; [exact (conj H1 (conj H2 (conj H3 H4)))|].
  exact (group_ungroup_roundtrip groupDoc H1 H2 H3 H4).
Defined.

(** [paste_semantics] on a one-element clipboard with the counter at 2. *)
Lemma paste_semantics_witness :
  clipboardRef pasteDoc <> []
  /\ exists newElements,
       elements (state (paste pasteDoc)) = elements (state pasteDoc) ++ newElements
       /\ selectedIds (state (paste pasteDoc)) = map el_id newElements
       /\ pasteCountRef (paste pasteDoc) = 3%Z.
Proof.
  assert (H : clipboardRef pasteDoc <> []) by (vm_compute; discriminate).
  split; [exact H|].
  destruct (paste_semantics pasteDoc H)
    as (ne & E1 & _ & _ & _ & _ & _ & E7 & E8 & _).
  exists ne. split; [exact E1|]. split; [exact E7|]. exact E8.
Defined.

(** [ungroup_flattens] on G, which holds a shape and a group holding a shape. *)
Lemma ungroup_flattens_witness :
  selectedIds (state nestedGroupDoc) = ["G"%string]
  /\ find_group (elements (state nestedGroupDoc)) "G" = Some (GroupElement nestedBase nestedKids)
  /\ exists out,
       elements (state (ungroupElements nestedGroupDoc))
         = filter (fun el => negb (String.eqb (el_id el) (id nestedBase)))
             (elements (state nestedGroupDoc)) ++ out
       /\ Forall2 leafRel (flat_map (fun k => leafCopies k (x nestedBase) (y nestedBase))
                             nestedKids) out
       /\ incl (map el_id out) (selectedIds (state (ungroupElements nestedGroupDoc))).
Proof.
  assert (H1 : selectedIds (state nestedGroupDoc) = ["G"%string]) by reflexivity.
  assert (H2 : find_group (elements (state nestedGroupDoc)) "G"
               = Some (GroupElement nestedBase nestedKids)) by reflexivity.
  split; [exact H1|]. split; [exact H2|].
  destruct (ungroup_flattens nestedGroupDoc "G" nestedBase nestedKids H1 H2)
    as (out & m & E1 & E2 & _ & _ & _ & E6 & _).
  exists out. split; [exact E1|]. split; [exact E2|]. exact E6.
Defined.

(** ** Further facts: provider operations, gestures and invariants *)

Lemma match_snoc {A B : Type} (l : list A) (a : A) (u v : B) :
  match l ++ [a] with [] => u | _ :: _ => v end = v.
Proof. destruct l; reflexivity. Qed.

(** X1. [setZoom] clamps: the new zoom always lies in [1/4, 3], equals the
    requested value when that is already in range, and no other field of the
    state changes. *)
Theorem setZoom_clamped (p : Provider) (z : Q) :
  (1#4) <= zoom (state (setZoom p z)) <= 3
  /\ ((1#4) <= z <= 3 -> zoom (state (setZoom p z)) == z)
  /\ elements (state (setZoom p z)) = elements (state p)
  /\ selectedIds (state (setZoom p z)) = selectedIds (state p)
  /\ pan (state (setZoom p z)) = pan (state p)
  /\ history (state (setZoom p z)) = history (state p)
  /\ redoStack (state (setZoom p z)) = redoStack (state p).
Proof.
  unfold setZoom, dispatch; simpl.
  repeat split; try reflexivity.
  - apply Q.min_glb; [discriminate|]. apply Q.le_max_l.
  - apply Q.le_min_l.
  - intros [H1 H2]. rewrite (Q.max_r _ _ H1). apply Q.min_r; exact H2.
Qed.

(** X2. Two successive [panBy] calls add up: the pan moves by the sum of the two
    deltas, and the elements, selection, zoom, undo/redo stacks and clipboard
    are left as they were. *)
Theorem panBy_compose (p : Provider) (a b : Point) :
  let q := panBy (panBy p a) b in
  px (pan (state q)) == px (pan (state p)) + (px a + px b)
  /\ py (pan (state q)) == py (pan (state p)) + (py a + py b)
  /\ elements (state q) = elements (state p)
  /\ selectedIds (state q) = selectedIds (state p)
  /\ zoom (state q) = zoom (state p)
  /\ history (state q) = history (state p)
  /\ redoStack (state q) = redoStack (state p)
  /\ clipboardRef q = clipboardRef p.
Proof.
  unfold panBy, dispatch; simpl. repeat split; try reflexivity; ring.
Qed.

(** X3. When the redo stack is not empty, [redo] followed by [undo] restores the
    elements, the history and the redo stack; the selection ends up empty. *)
Theorem redo_undo_roundtrip (p : Provider) :
  redoStack (state p) <> [] ->
  let q := undo (redo p) in
  elements (state q) = elements (state p)
  /\ history (state q) = history (state p)
  /\ redoStack (state q) = redoStack (state p)
  /\ selectedIds (state q) = [].
Proof.
  intros H. unfold undo, redo, dispatch, canvasReducer; simpl.
  destruct (redoStack (state p)) as [|n r] eqn:E; [congruence|]. simpl.
  unfold deepCopy.
  rewrite match_snoc, last_last, removelast_last. repeat split.
Qed.

(** X4. A recorded [mutateElements] followed by [undo] restores the elements and
    the history; the redo stack then holds exactly the mutated elements and the
    selection is empty. *)
Theorem mutate_then_undo (p : Provider) (f : list CanvasElement -> list CanvasElement) :
  let q := undo (mutateElements p f noOptions) in
  elements (state q) = elements (state p)
  /\ history (state q) = history (state p)
  /\ redoStack (state q) = [f (elements (state p))]
  /\ selectedIds (state q) = [].
Proof.
  unfold undo, mutateElements, dispatch, canvasReducer; simpl. unfold deepCopy.
  rewrite match_snoc, last_last, removelast_last. repeat split.
Qed.

(** X5. [updateElement] on an id that names no element leaves the elements
    unchanged but still records a history entry and clears the redo stack;
    [updateSelectedElements] with an empty selection does nothing at all. *)
Theorem update_missing_target (p : Provider) (i : string)
    (changes merge : CanvasElement -> CanvasElement) :
  ~ In i (map el_id (elements (state p))) ->
  elements (state (updateElement p i changes)) = elements (state p)
  /\ history (state (updateElement p i changes)) = history (state p) ++ [elements (state p)]
  /\ redoStack (state (updateElement p i changes)) = []
  /\ (selectedIds (state p) = [] -> updateSelectedElements p merge = p).
Proof.
  intros Hn. unfold updateElement, mutateElements, dispatch, canvasReducer; simpl.
  repeat split.
  - unfold deepCopy. induction (elements (state p)) as [|e l IH]; [reflexivity|].
    simpl in *. destruct (String.eqb (el_id e) i) eqn:E.
    + apply String.eqb_eq in E. exfalso; apply Hn; left; exact E.
    + rewrite IH; [reflexivity|]. intros H; apply Hn; right; exact H.
  - intros H. unfold updateSelectedElements. rewrite H. reflexivity.
Qed.

(** X6. [addShape], [addText] and [addImage] each append exactly one element, with
    the next fresh id, select just that element, record one history entry,
    clear the redo stack and leave the clipboard refs alone. *)
Theorem add_appends_and_selects (p : Provider) (s : ShapeVariant) (t : option string)
    (src : string) (size : option (Q * Q)) :
  addedOne p (addShape p s) /\ addedOne p (addText p t) /\ addedOne p (addImage p src size).
Proof.
  repeat split; eexists; (split; [reflexivity|]);
    unfold el_id; simpl; repeat split.
Qed.

(** X7. [addText] never creates an empty text: without an argument the text is
    the default label, an empty argument is replaced by the placeholder, and
    any other argument is kept. *)
Theorem addText_nonempty (p : Provider) (t : option string) :
  exists e txt,
    elements (state (addText p t)) = elements (state p) ++ [e]
    /\ el_text e = Some txt
    /\ txt <> ""%string
    /\ match t with
       | None => txt = "双击编辑文本"%string
       | Some s => (s <> ""%string -> txt = s) /\ (s = ""%string -> txt = "请输入文本内容..."%string)
       end.
Proof.
  destruct t as [s|].
  - destruct (String.eqb s "") eqn:E.
    + apply String.eqb_eq in E; subst s.
      do 2 eexists; split; [reflexivity|]; simpl. split; [reflexivity|].
      split; [discriminate|]. split; [intros H; congruence|reflexivity].
    + do 2 eexists; split; [reflexivity|]; simpl. rewrite E. split; [reflexivity|].
      apply String.eqb_neq in E.
      split; [exact E|]. split; [reflexivity|intros H; congruence].
  - do 2 eexists; split; [reflexivity|]; simpl. split; [reflexivity|].
    split; [discriminate|reflexivity].
Qed.

Lemma includes_In (l : list string) (s : string) : includes l s = true <-> In s l.
Proof.
  unfold includes. rewrite existsb_exists. split.
  - intros (y & Hy & E). apply String.eqb_eq in E; subst; exact Hy.
  - intros H. exists s; split; [exact H|apply String.eqb_refl].
Qed.

(** X8. With a non-empty selection, [deleteSelected] keeps exactly the elements
    whose id is not selected and clears the selection; a following [undo]
    restores the elements and the history. *)
Theorem deleteSelected_then_undo (p : Provider) :
  selectedIds (state p) <> [] ->
  let q := deleteSelected p in
  (forall e, In e (elements (state q))
             <-> In e (elements (state p)) /\ ~ In (el_id e) (selectedIds (state p)))
  /\ selectedIds (state q) = []
  /\ elements (state (undo q)) = elements (state p)
  /\ history (state (undo q)) = history (state p).
Proof.
  intros Hne q; subst q. unfold deleteSelected.
  destruct (selectedIds (state p)) as [|s0 sr] eqn:Hs; [congruence|].
  rewrite <- Hs.
  unfold undo, mutateElements, dispatch, canvasReducer; simpl. unfold deepCopy.
  rewrite match_snoc, last_last, removelast_last.
  split; [intros e; split|repeat split].
  - intros Hi. apply filter_In in Hi as [H1 H2]. split; [exact H1|].
    rewrite <- includes_In. destruct (includes _ _); simpl in H2; congruence.
  - intros [H1 H2]. apply filter_In; split; [exact H1|].
    rewrite <- includes_In in H2. destruct (includes _ _); [congruence|reflexivity].
Qed.

Lemma dedup_aux_In (l : list string) : forall seen s,
  In s (dedup_aux seen l) <-> In s l /\ ~ In s seen.
Proof.
  induction l as [|a l IH]; intros seen s; simpl; [tauto|].
  destruct (includes seen a) eqn:E.
  - rewrite IH. apply includes_In in E. split.
    + intros [H1 H2]; tauto.
    + intros [[<-|H1] H2]; [contradiction|tauto].
  - simpl. rewrite IH, in_app_iff. simpl.
    assert (~ In a seen) by (rewrite <- includes_In, E; discriminate).
    split.
    + intros [<-|[H1 H2]]; [tauto|tauto].
    + intros [[<-|H1] H2]; [left; reflexivity|].
      destruct (String.eqb_spec a s) as [->|Hne]; [left; reflexivity|right].
      split; [exact H1|]. intros [H3|[H3|[]]]; [tauto|congruence].
Qed.

Lemma dedup_aux_NoDup (l : list string) : forall seen, NoDup (dedup_aux seen l).
Proof.
  induction l as [|a l IH]; intros seen; simpl; [constructor|].
  destruct (includes seen a); [apply IH|].
  constructor; [|apply IH].
  rewrite dedup_aux_In, in_app_iff. simpl. tauto.
Qed.

Lemma dedup_aux_prefix (l1 : list string) : forall seen l2,
  NoDup l1 -> (forall s, In s l1 -> ~ In s seen) ->
  dedup_aux seen (l1 ++ l2) = l1 ++ dedup_aux (seen ++ l1) l2.
Proof.
  induction l1 as [|a l1 IH]; intros seen l2 Hnd Hdis; simpl.
  - rewrite app_nil_r; reflexivity.
  - inversion Hnd as [|? ? Ha Hnd']; subst.
    assert (E : includes seen a = false).
    { destruct (includes seen a) eqn:E; [|reflexivity].
      apply includes_In in E. exfalso; apply (Hdis a); [left|]; auto. }
    rewrite E. f_equal. rewrite IH, <- app_assoc; [reflexivity|exact Hnd'|].
    intros s Hs. rewrite in_app_iff. simpl. intros [H|[<-|[]]].
    + apply (Hdis s); [right|]; auto.
    + contradiction.
Qed.

(** X9. An additive [setSelection] yields a duplicate-free selection whose
    members are those of the old selection and of the payload; when the old
    selection had no duplicates it is kept as a prefix. Elements and history do
    not change. *)
Theorem setSelection_additive (p : Provider) (ids : list string) :
  let s := selectedIds (state (setSelection p ids true)) in
  NoDup s
  /\ (forall i, In i s <-> In i (selectedIds (state p)) \/ In i ids)
  /\ (NoDup (selectedIds (state p)) -> exists r, s = selectedIds (state p) ++ r)
  /\ elements (state (setSelection p ids true)) = elements (state p)
  /\ history (state (setSelection p ids true)) = history (state p).
Proof.
  unfold setSelection, dispatch, canvasReducer, setFrom; simpl.
  repeat split.
  - apply dedup_aux_NoDup.
  - intros H. apply dedup_aux_In in H as [H _]. apply in_app_iff in H; exact H.
  - intros H. apply dedup_aux_In. split; [apply in_app_iff; exact H|intros []].
  - intros Hnd. eexists. apply dedup_aux_prefix; [exact Hnd|intros s _ []].
Qed.

Lemma paste_eq (p : Provider) els ids seed' :
  clipboardRef p <> [] ->
  pasteItems (clipboardRef p) (inject_Z (20 * pasteCountRef p)) (idSeed p) = (els, ids, seed') ->
  paste p =
  mkProvider
    (mkState (elements (state p) ++ els) ids (zoom (state p)) (pan (state p))
       (interactionMode (state p)) (history (state p) ++ [elements (state p)]) [])
    (clipboardRef p) (pasteCountRef p + 1) seed'.
Proof.
  intros Hne Hp. unfold paste.
  destruct (clipboardRef p) as [|c0 cr] eqn:Hcb; [congruence|].
  rewrite Hp. reflexivity.
Qed.

(** X10. [copy] of a non-empty live selection followed by two [paste] calls
    appends two copies of the selected elements: the first offset by 20 and the
    second by 40, each with fresh consecutive ids and a [" 副本"] name suffix.
    The second batch is selected, the clipboard holds the copied elements, the
    paste counter is 3 and one history entry is recorded per paste. *)
Theorem copy_paste_paste (p : Provider) :
  let cb := filter (fun el => includes (selectedIds (state p)) (el_id el)) (elements (state p)) in
  cb <> [] ->
  let n := List.length cb in
  let q := paste (paste (copy p)) in
  exists P1 P2,
    elements (state q) = elements (state p) ++ P1 ++ P2
    /\ List.length P1 = n /\ List.length P2 = n
    /\ (forall i item, nth_error cb i = Some item ->
          nth_error P1 i =
            Some (set_xy (set_name (set_id item (createId (idSeed p + N.of_nat i)))
                                   (name (base_of item) ++ " 副本"))
                         (el_x item + 20) (el_y item + 20))
          /\ nth_error P2 i =
            Some (set_xy (set_name (set_id item (createId (idSeed p + N.of_nat n + N.of_nat i)))
                                   (name (base_of item) ++ " 副本"))
                         (el_x item + 40) (el_y item + 40)))
    /\ selectedIds (state q) = map el_id P2
    /\ clipboardRef q = cb
    /\ pasteCountRef q = 3%Z
    /\ history (state q)
       = history (state p) ++ [elements (state p); elements (state p) ++ P1].
Proof.
  intros cb Hne n q. subst q n.
  assert (Hc : copy p = mkProvider (state p) cb 1 (idSeed p)).
  { unfold copy. fold cb. destruct cb; [congruence|reflexivity]. }
  rewrite Hc.
  destruct (pasteItems cb (inject_Z (20 * 1)) (idSeed p)) as [[els1 ids1] s1] eqn:H1.
  rewrite (paste_eq (mkProvider (state p) cb 1 (idSeed p)) els1 ids1 s1 Hne H1).
  destruct (pasteItems cb (inject_Z (20 * (1 + 1))) s1) as [[els2 ids2] s2] eqn:H2.
  rewrite (paste_eq (mkProvider _ cb (1 + 1) s1) els2 ids2 s2 Hne H2). simpl.
  destruct (pasteItems_spec _ _ _ _ _ _ H1) as (L1 & I1 & S1 & N1).
  destruct (pasteItems_spec _ _ _ _ _ _ H2) as (L2 & I2 & S2 & N2).
  exists els1, els2. rewrite <- app_assoc.
  split; [reflexivity|]. split; [exact L1|]. split; [exact L2|].
  split; [|split; [exact I2|split; [reflexivity|split; [reflexivity|rewrite <- app_assoc; reflexivity]]]].
  intros i item Hi. rewrite (N1 i item Hi), (N2 i item Hi), S1. split; reflexivity.
Qed.

(** X11. [handleElementPointerDown]: in pan mode it does nothing. In select
    mode the clicked id ends up selected. A plain click on a selected element
    keeps the selection, and a plain click elsewhere selects only that element.
    An additive click adds the element to the selection. The elements and the
    history are unchanged. A drag starts over the new selection, not yet moved,
    with the current elements as its history snapshot. *)
Theorem click_selection (p : Provider) (eid : string) (additive : bool) (local : Point) :
  (interactionMode (state p) = mode_pan ->
     handleElementPointerDown p eid additive local = (p, None))
  /\ (interactionMode (state p) = mode_select ->
     let sel := selectedIds (state p) in
     let q := fst (handleElementPointerDown p eid additive local) in
     let sel' := selectedIds (state q) in
     In eid sel'
     /\ (additive = false -> In eid sel -> sel' = sel)
     /\ (additive = false -> ~ In eid sel -> sel' = [eid])
     /\ (additive = true -> forall i, In i sel' <-> In i sel \/ i = eid)
     /\ elements (state q) = elements (state p)
     /\ history (state q) = history (state p)
     /\ exists d, snd (handleElementPointerDown p eid additive local) = Some d
                  /\ drag_ids d = sel' /\ drag_moved d = false
                  /\ drag_historySnapshot d = elements (state p)).
Proof.
  unfold handleElementPointerDown. split; intros Hm; rewrite Hm; [reflexivity|].
  simpl.
  destruct additive; simpl.
  - unfold setFrom.
    split; [|split; [discriminate|split; [discriminate|split; [|split; [reflexivity|split; [reflexivity|]]]]]].
    + apply dedup_aux_In. split; [apply in_app_iff; right; left; reflexivity|intros []].
    + intros _ i. rewrite dedup_aux_In, in_app_iff. simpl.
      split; [intros [[H|[H|[]]] _]; [left; exact H|right; symmetry; exact H]|].
      intros [H|H]; (split; [|intros []]); [left; exact H|right; left; symmetry; exact H].
    + eexists; repeat split.
  - destruct (includes (selectedIds (state p)) eid) eqn:E.
    + apply includes_In in E.
      split; [exact E|split; [reflexivity|split; [intros _ H; contradiction|split; [discriminate|split; [reflexivity|split; [reflexivity|]]]]]].
      eexists; repeat split.
    + assert (~ In eid (selectedIds (state p))) by (rewrite <- includes_In, E; discriminate).
      split; [left; reflexivity|split; [intros _ H'; contradiction|split; [reflexivity|split; [discriminate|split; [reflexivity|split; [reflexivity|]]]]]].
      eexists; repeat split.
Qed.

Lemma bbox_fold_eq (l : list CanvasElement) : forall a b c d,
  fold_left bbox_step l (Some (a, b, c, d))
  = Some (fold_left Qmin (map el_x l) a, fold_left Qmin (map el_y l) b,
          fold_left Qmax (map (fun e => el_x e + el_width e) l) c,
          fold_left Qmax (map (fun e => el_y e + el_height e) l) d).
Proof. induction l as [|e l IH]; intros; simpl; [reflexivity|apply IH]. Qed.

Lemma fold_Qmin_spec (l : list Q) : forall a,
  fold_left Qmin l a <= a /\ (forall v, In v l -> fold_left Qmin l a <= v)
  /\ (fold_left Qmin l a == a \/ exists v, In v l /\ fold_left Qmin l a == v).
Proof.
  induction l as [|v l IH]; intros a; simpl.
  - split; [apply Qle_refl|split; [intros _ []|left; reflexivity]].
  - destruct (IH (Qmin a v)) as (H1 & H2 & H3).
    split; [|split].
    + eapply Qle_trans; [exact H1|apply Q.le_min_l].
    + intros w [<-|Hw]; [|apply H2, Hw].
      eapply Qle_trans; [exact H1|apply Q.le_min_r].
    + destruct H3 as [H3|(w & Hw & H3)]; [|right; exists w; split; [right; exact Hw|exact H3]].
      destruct (Q.min_spec a v) as [[_ E]|[_ E]].
      * left; eapply Qeq_trans; [exact H3|exact E].
      * right; exists v; split; [left; reflexivity|eapply Qeq_trans; [exact H3|exact E]].
Qed.

Lemma fold_Qmax_spec (l : list Q) : forall a,
  a <= fold_left Qmax l a /\ (forall v, In v l -> v <= fold_left Qmax l a)
  /\ (fold_left Qmax l a == a \/ exists v, In v l /\ fold_left Qmax l a == v).
Proof.
  induction l as [|v l IH]; intros a; simpl.
  - split; [apply Qle_refl|split; [intros _ []|left; reflexivity]].
  - destruct (IH (Qmax a v)) as (H1 & H2 & H3).
    split; [|split].
    + eapply Qle_trans; [apply Q.le_max_l|exact H1].
    + intros w [<-|Hw]; [|apply H2, Hw].
      eapply Qle_trans; [apply Q.le_max_r|exact H1].
    + destruct H3 as [H3|(w & Hw & H3)]; [|right; exists w; split; [right; exact Hw|exact H3]].
      destruct (Q.max_spec a v) as [[_ E]|[_ E]].
      * right; exists v; split; [left; reflexivity|eapply Qeq_trans; [exact H3|exact E]].
      * left; eapply Qeq_trans; [exact H3|exact E].
Qed.

(** The box of [bbox]: each of its four bounds is reached by some element, and
    every element lies within it. *)

Lemma bbox_spec (l : list CanvasElement) minX minY maxX maxY :
  bbox l = Some (minX, minY, maxX, maxY) ->
  (forall el, In el l -> minX <= el_x el /\ minY <= el_y el
                         /\ el_x el + el_width el <= maxX /\ el_y el + el_height el <= maxY)
  /\ (exists el, In el l /\ el_x el == minX)
  /\ (exists el, In el l /\ el_y el == minY)
  /\ (exists el, In el l /\ el_x el + el_width el == maxX)
  /\ (exists el, In el l /\ el_y el + el_height el == maxY).
Proof.
  unfold bbox. destruct l as [|e l]; [discriminate|]. simpl. rewrite bbox_fold_eq.
  intros H; injection H as <- <- <- <-.
  destruct (fold_Qmin_spec (map el_x l) (el_x e)) as (A1 & A2 & A3).
  destruct (fold_Qmin_spec (map el_y l) (el_y e)) as (B1 & B2 & B3).
  destruct (fold_Qmax_spec (map (fun e => el_x e + el_width e) l) (el_x e + el_width e))
    as (C1 & C2 & C3).
  destruct (fold_Qmax_spec (map (fun e => el_y e + el_height e) l) (el_y e + el_height e))
    as (D1 & D2 & D3).
  split; [|split; [|split; [|split]]].
  - intros el [<-|Hin]; [repeat split; assumption|].
    repeat split; [apply A2|apply B2|apply C2|apply D2];
      apply (in_map (fun e => _) _ _ Hin).
  - destruct A3 as [E|(v & Hv & E)]; [exists e; split; [left; reflexivity|symmetry; exact E]|].
    apply in_map_iff in Hv as (el & <- & Hel). exists el; split; [right; exact Hel|symmetry; exact E].
  - destruct B3 as [E|(v & Hv & E)]; [exists e; split; [left; reflexivity|symmetry; exact E]|].
    apply in_map_iff in Hv as (el & <- & Hel). exists el; split; [right; exact Hel|symmetry; exact E].
  - destruct C3 as [E|(v & Hv & E)]; [exists e; split; [left; reflexivity|symmetry; exact E]|].
    apply in_map_iff in Hv as (el & <- & Hel). exists el; split; [right; exact Hel|symmetry; exact E].
  - destruct D3 as [E|(v & Hv & E)]; [exists e; split; [left; reflexivity|symmetry; exact E]|].
    apply in_map_iff in Hv as (el & <- & Hel). exists el; split; [right; exact Hel|symmetry; exact E].
Qed.

(** X12. [getBoundingBox] is [None] exactly on the empty list; otherwise its box
    encloses every element and each of its four edges is reached by some
    element. *)
Theorem getBoundingBox_tight (els : list CanvasElement) :
  (getBoundingBox els = None <-> els = [])
  /\ forall r, getBoundingBox els = Some r ->
     (forall el, In el els ->
        rx r <= el_x el /\ ry r <= el_y el
        /\ el_x el + el_width el <= rx r + rw r /\ el_y el + el_height el <= ry r + rh r)
     /\ (exists el, In el els /\ el_x el == rx r)
     /\ (exists el, In el els /\ el_y el == ry r)
     /\ (exists el, In el els /\ el_x el + el_width el == rx r + rw r)
     /\ (exists el, In el els /\ el_y el + el_height el == ry r + rh r).
Proof.
  split.
  - unfold getBoundingBox. split.
    + intros H. destruct els as [|e l]; [reflexivity|].
      destruct (bbox_some (e :: l) ltac:(discriminate)) as (a & b & c & d & E).
      rewrite E in H; discriminate.
    + intros ->; reflexivity.
  - intros r. unfold getBoundingBox.
    destruct (bbox els) as [[[[a b] c] d]|] eqn:E; [|discriminate].
    intros H; injection H as <-. simpl.
    destruct (bbox_spec els a b c d E) as (H1 & H2 & H3 & H4 & H5).
    assert (Ec : forall u v : Q, u + (v - u) == v) by (intros; ring).
    split; [|split; [exact H2|split; [exact H3|split]]].
    + intros el Hel. destruct (H1 el Hel) as (P1 & P2 & P3 & P4).
      rewrite !Ec. repeat split; assumption.
    + destruct H4 as (el & Hel & Q1); exists el; split; [exact Hel|rewrite Ec; exact Q1].
    + destruct H5 as (el & Hel & Q1); exists el; split; [exact Hel|rewrite Ec; exact Q1].
Qed.

(** X13. [groupElements] with at least two selected ids, some of them live,
    replaces the selected elements by one group appended at the end, with a
    fresh id, which becomes the only selected element. Its children keep the
    selected elements' ids and sizes, their positions are relative to the
    group's origin, and they all lie inside the group's box. One history entry
    is recorded and the redo stack is cleared. *)
Theorem group_encloses_children (p : Provider) :
  let sel := selectedIds (state p) in
  let S := filter (fun el => includes sel (el_id el)) (elements (state p)) in
  (2 <= List.length sel)%nat ->
  S <> [] ->
  let q := groupElements p in
  exists gb kids,
    elements (state q)
      = filter (fun el => negb (includes sel (el_id el))) (elements (state p))
        ++ [GroupElement gb kids]
    /\ id gb = createId (idSeed p)
    /\ selectedIds (state q) = [id gb]
    /\ map el_id kids = map el_id S
    /\ Forall2 (fun el k => x gb + el_x k == el_x el /\ y gb + el_y k == el_y el
                            /\ el_width k = el_width el /\ el_height k = el_height el) S kids
    /\ Forall (fun k => 0 <= el_x k /\ el_x k + el_width k <= width gb
                        /\ 0 <= el_y k /\ el_y k + el_height k <= height gb) kids
    /\ history (state q) = history (state p) ++ [elements (state p)]
    /\ redoStack (state q) = [].
Proof.
  intros sel S Hlen HS q. subst q.
  destruct (bbox_some S HS) as (minX & minY & maxX & maxY & Hb).
  destruct (bbox_spec S _ _ _ _ Hb) as (Hin & _).
  unfold groupElements.
  assert (Hleb : Nat.leb (List.length (selectedIds (state p))) 1 = false)
    by (apply Nat.leb_gt; unfold sel in Hlen; lia).
  rewrite Hleb. fold sel. fold S. rewrite Hb. cbn [nextId].
  do 2 eexists. split; [reflexivity|]. simpl.
  split; [reflexivity|]. split; [reflexivity|]. split.
  - rewrite map_map. apply map_ext. intros a.
    unfold el_id, set_xy, deepCopy; rewrite base_of_with_base; reflexivity.
  - split; [|split; [|split; reflexivity]].
    + clear Hin Hb HS. induction S as [|s r IH]; simpl; [constructor|constructor; [|exact IH]].
      unfold set_xy, deepCopy, el_x, el_y, el_width, el_height; rewrite base_of_with_base; simpl.
      split; [ring|split; [ring|split; reflexivity]].
    + apply Forall_map. apply Forall_forall. intros el Hel.
      destruct (Hin el Hel) as (P1 & P2 & P3 & P4).
      unfold set_xy, deepCopy, el_x, el_y, el_width, el_height in *;
        rewrite base_of_with_base; simpl.
      split; [|split; [|split]].
      * rewrite <- (Qplus_opp_r minX). apply Qplus_le_compat; [exact P1|apply Qle_refl].
      * setoid_replace (x (base_of el) - minX + width (base_of el))
          with (x (base_of el) + width (base_of el) - minX) by ring.
        apply Qplus_le_compat; [exact P3|apply Qle_refl].
      * rewrite <- (Qplus_opp_r minY). apply Qplus_le_compat; [exact P2|apply Qle_refl].
      * setoid_replace (y (base_of el) - minY + height (base_of el))
          with (y (base_of el) + height (base_of el) - minY) by ring.
        apply Qplus_le_compat; [exact P4|apply Qle_refl].
Qed.

Lemma el_id_set_geom (e : CanvasElement) a b c d : el_id (set_geom e a b c d) = el_id e.
Proof. unfold el_id, set_geom; rewrite base_of_with_base; reflexivity. Qed.

Lemma set_geom_set_geom (e : CanvasElement) a b c d a' b' c' d' :
  set_geom (set_geom e a b c d) a' b' c' d' = set_geom e a' b' c' d'.
Proof. destruct e; reflexivity. Qed.

Lemma el_id_resizeElement (info : ResizeInfo) dx dy e :
  el_id (resizeElement info dx dy e) = el_id e.
Proof.
  unfold resizeElement. destruct (negb _); [reflexivity|].
  destruct (startElements info (el_id e)); [apply el_id_set_geom|reflexivity].
Qed.

Lemma resizeElement_last (info : ResizeInfo) a b c d e :
  resizeElement info a b (resizeElement info c d e) = resizeElement info a b e.
Proof.
  assert (Hid := el_id_resizeElement info c d e).
  remember (resizeElement info c d e) as e' eqn:He'.
  unfold resizeElement in He' |- *. rewrite Hid.
  destruct (negb _) eqn:N; [subst e'; reflexivity|].
  destruct (startElements info (el_id e)) eqn:S; subst e'; [apply set_geom_set_geom|reflexivity].
Qed.

Lemma last_cons_default {A : Type} (m : A) (ms : list A) (d : A) :
  last (m :: ms) d = last ms m.
Proof.
  revert m d; induction ms as [|a ms IH]; intros m d; [reflexivity|].
  change (last (a :: ms) d = last (a :: ms) m). rewrite !IH. reflexivity.
Qed.

Lemma resizeMoves_moved (ms : list Point) : forall p r lp els0,
  elements (state p) = resizedAt r lp els0 ->
  rr_info (snd (resizeMoves p r ms)) = rr_info r
  /\ rr_startPointer (snd (resizeMoves p r ms)) = rr_startPointer r
  /\ rr_historySnapshot (snd (resizeMoves p r ms)) = rr_historySnapshot r
  /\ rr_moved (snd (resizeMoves p r ms)) = match ms with [] => rr_moved r | _ => true end
  /\ elements (state (fst (resizeMoves p r ms))) = resizedAt r (last ms lp) els0
  /\ history (state (fst (resizeMoves p r ms))) = history (state p)
  /\ redoStack (state (fst (resizeMoves p r ms))) = redoStack (state p)
  /\ selectedIds (state (fst (resizeMoves p r ms))) = selectedIds (state p).
Proof.
  induction ms as [|m ms IH]; intros p r lp els0 He;
    cbn [resizeMoves resizeMove fst snd]; [repeat split; assumption|].
  destruct (IH (performResize p (rr_info r) (px m - px (rr_startPointer r))
                  (py m - py (rr_startPointer r)))
              (mkResizeRef (rr_info r) (rr_startPointer r) (rr_historySnapshot r) true)
              m els0) as (I1 & I2 & I3 & I4 & I5 & I6 & I7 & I8).
  { rewrite performResize_elements, He. unfold resizedAt. rewrite map_map.
    apply map_ext. intros e. apply resizeElement_last. }
  cbn [rr_info rr_startPointer rr_historySnapshot rr_moved] in *. rewrite last_cons_default.
  repeat split; try assumption.
  - rewrite I4. destruct ms; reflexivity.
Qed.

Lemma runResize_spec (p : Provider) (r : ResizeRef) (moves : list Point) :
  rr_moved r = false ->
  let q := runResize p r moves in
  match moves with
  | [] => q = p
  | _ => elements (state q) = resizedAt r (last moves (rr_startPointer r)) (elements (state p))
         /\ history (state q) = history (state p) ++ [rr_historySnapshot r]
         /\ redoStack (state q) = []
         /\ selectedIds (state q) = selectedIds (state p)
  end.
Proof.
  intros Hm q. subst q.
  assert (Hr : runResize p r moves
               = resizeRelease (fst (resizeMoves p r moves)) (snd (resizeMoves p r moves)))
    by (unfold runResize; destruct (resizeMoves p r moves); reflexivity).
  rewrite Hr. clear Hr.
  destruct moves as [|m ms].
  - unfold resizeRelease; simpl. rewrite Hm. reflexivity.
  - assert (Hs : resizeMoves p r (m :: ms)
                 = resizeMoves (performResize p (rr_info r) (px m - px (rr_startPointer r))
                                  (py m - py (rr_startPointer r)))
                     (mkResizeRef (rr_info r) (rr_startPointer r) (rr_historySnapshot r) true)
                     ms) by reflexivity.
    rewrite Hs, last_cons_default.
    destruct (resizeMoves_moved ms
                (performResize p (rr_info r) (px m - px (rr_startPointer r))
                   (py m - py (rr_startPointer r)))
                (mkResizeRef (rr_info r) (rr_startPointer r) (rr_historySnapshot r) true)
                m (elements (state p)) eq_refl) as (I1 & I2 & I3 & I4 & I5 & I6 & I7 & I8).
    cbn [rr_info rr_startPointer rr_historySnapshot rr_moved] in *.
    unfold resizeRelease.
    assert (M : rr_moved (snd (resizeMoves
                  (performResize p (rr_info r) (px m - px (rr_startPointer r))
                     (py m - py (rr_startPointer r)))
                  {| rr_info := rr_info r; rr_startPointer := rr_startPointer r;
                     rr_historySnapshot := rr_historySnapshot r; rr_moved := true |} ms)) = true)
      by (rewrite I4; destruct ms; reflexivity).
    rewrite M. unfold mutateElements, dispatch, canvasReducer. cbn.
    rewrite ?I3, ?I5, ?I6, ?I8. unfold resizedAt. cbn. repeat split.
Qed.

Lemma scaleOf_same (a b : Q) : a == b -> scaleOf a b == 1.
Proof.
  intros E. unfold scaleOf. destruct (Qle_bool b 0) eqn:B; [reflexivity|].
  assert (Hb : ~ b == 0).
  { intros Z. assert (Qle_bool b 0 = true) by (apply Qle_bool_iff; rewrite Z; apply Qle_refl).
    congruence. }
  rewrite E. unfold Qdiv. apply Qmult_inv_r, Hb.
Qed.

(** X14. Resizing a selected element through a side handle leaves the other axis
    at its start value: for the [e]/[w] handles its y and its height (clamped
    at 0), for the [n]/[s] handles its x and its width (clamped at 0). *)
Lemma side_handle_keeps_axis (info : ResizeInfo) (dx dy : Q) (el s : CanvasElement) :
  includes (ri_ids info) (el_id el) = true -> startElements info (el_id el) = Some s ->
  let el' := resizeElement info dx dy el in
  ((direction info = dir_e \/ direction info = dir_w) ->
     el_y el' == el_y s /\ el_height el' == Qmax 0 (el_height s))
  /\ ((direction info = dir_n \/ direction info = dir_s) ->
     el_x el' == el_x s /\ el_width el' == Qmax 0 (el_width s)).
Proof.
  intros H1 H2 el'.
  destruct (resizeElement_selected info dx dy el s H1 H2) as (_ & Hx & Hy & Hw & Hh).
  fold el' in Hx, Hy, Hw, Hh.
  split; intros Hd; [rewrite Hy, Hh|rewrite Hx, Hw];
    destruct Hd as [Hd|Hd]; rewrite Hd; unfold computeNewBounds; cbn -[Qmax Qplus Qminus scaleOf];
    rewrite scaleOf_same by reflexivity;
    (split; [ring|rewrite Qmult_1_r; reflexivity]).
Qed.

Lemma find_app_snoc {A : Type} (f : A -> bool) (l : list A) (a : A) :
  find f (l ++ [a]) = match find f l with Some b => Some b | None => if f a then Some a else None end.
Proof. induction l as [|b l IH]; simpl; [reflexivity|]. destruct (f b); [reflexivity|exact IH]. Qed.

Lemma recordOf_find (l : list CanvasElement) : forall r0 k,
  fold_left (fun r el => fun k => if String.eqb k (el_id el) then Some el else r k) l r0 k
  = match find (fun e => String.eqb k (el_id e)) (rev l) with
    | Some e => Some e
    | None => r0 k
    end.
Proof.
  induction l as [|a l IH]; intros r0 k; simpl; [reflexivity|].
  rewrite IH, find_app_snoc. destruct (find _ (rev l)); [reflexivity|].
  simpl. destruct (String.eqb k (el_id a)); reflexivity.
Qed.

Lemma NoDup_map_inj {A B : Type} (f : A -> B) (l : list A) a b :
  NoDup (map f l) -> In a l -> In b l -> f a = f b -> a = b.
Proof.
  induction l as [|c l IH]; intros Hnd Ha Hb E; [destruct Ha|].
  inversion Hnd as [|? ? Hc Hnd']; subst.
  destruct Ha as [<-|Ha], Hb as [<-|Hb]; auto.
  - exfalso; apply Hc. rewrite E. apply in_map, Hb.
  - exfalso; apply Hc. rewrite <- E. apply in_map, Ha.
Qed.

Lemma recordOf_in (l : list CanvasElement) (e : CanvasElement) :
  NoDup (map el_id l) -> In e l -> recordOf l (el_id e) = Some e.
Proof.
  intros Hnd He. unfold recordOf. rewrite recordOf_find.
  destruct (find (fun e' => String.eqb (el_id e) (el_id e')) (rev l)) as [e'|] eqn:F.
  - apply find_some in F as [F1 F2]. apply in_rev in F1. apply String.eqb_eq in F2.
    f_equal. symmetry. apply (NoDup_map_inj el_id l); assumption.
  - exfalso. apply find_none with (x := e) in F; [|apply in_rev; rewrite rev_involutive; exact He].
    rewrite String.eqb_refl in F. discriminate.
Qed.

Lemma NoDup_map_filter {A B : Type} (f : A -> B) (P : A -> bool) (l : list A) :
  NoDup (map f l) -> NoDup (map f (filter P l)).
Proof.
  induction l as [|a l IH]; intros Hnd; simpl; [constructor|].
  inversion Hnd as [|? ? Ha Hnd']; subst.
  destruct (P a); simpl; [constructor|]; try (apply IH; exact Hnd').
  intros Hin. apply Ha. apply in_map_iff in Hin as (b & Hb & Hin).
  apply filter_In in Hin as [Hin _]. rewrite <- Hb. apply in_map, Hin.
Qed.

Lemma computeNewBounds_zero (dir : ResizeDirection) (sb : Rect) (dx dy : Q) :
  0 <= rw sb -> 0 <= rh sb -> dx == 0 -> dy == 0 ->
  rectEq (computeNewBounds dir sb dx dy) sb.
Proof.
  intros Hw Hh Ex Ey. unfold rectEq, computeNewBounds, MIN_ELEMENT_SIZE.
  assert (A : Qmax 0 (rw sb + 0) == rw sb) by (rewrite Qplus_0_r; apply Q.max_r, Hw).
  assert (B : Qmax 0 (rh sb + 0) == rh sb) by (rewrite Qplus_0_r; apply Q.max_r, Hh).
  assert (C : Qmax 0 (rw sb - 0) == rw sb)
    by (setoid_replace (rw sb - 0) with (rw sb) by ring; apply Q.max_r, Hw).
  assert (D : Qmax 0 (rh sb - 0) == rh sb)
    by (setoid_replace (rh sb - 0) with (rh sb) by ring; apply Q.max_r, Hh).
  destruct dir; cbn -[Qmax Qplus Qminus]; rewrite ?Ex, ?Ey, ?A, ?B, ?C, ?D;
    repeat split; try reflexivity; ring.
Qed.

Lemma runOp_resize (p : Provider) dir start moves :
  runOp p (OpResize dir start moves)
  = match resizeStart (state p) (selectedIds (state p)) dir start with
    | None => p
    | Some r => runResize p r moves
    end.
Proof. reflexivity. Qed.

Lemma resizeStart_some (st : CanvasState) ids dir start r :
  resizeStart st ids dir start = Some r ->
  interactionMode st = mode_select
  /\ rr_moved r = false /\ rr_startPointer r = start
  /\ rr_historySnapshot r = elements st
  /\ ri_ids (rr_info r) = ids /\ direction (rr_info r) = dir
  /\ startElements (rr_info r) = recordOf (filter (fun el => includes ids (el_id el)) (elements st))
  /\ getBoundingBox (filter (fun el => includes ids (el_id el)) (elements st))
     = Some (startBounds (rr_info r)).
Proof.
  unfold resizeStart, handleResizeStart.
  destruct (interactionMode st); [|discriminate].
  destruct (filter _ _) as [|e l] eqn:F; [discriminate|].
  destruct (getBoundingBox (e :: l)) eqn:B; [|discriminate].
  intros H; injection H as <-. simpl. repeat split; exact B.
Qed.

Lemma resizeStart_none (st : CanvasState) ids dir start :
  resizeStart st ids dir start = None
  <-> interactionMode st = mode_pan
      \/ filter (fun el => includes ids (el_id el)) (elements st) = [].
Proof.
  unfold resizeStart, handleResizeStart.
  destruct (interactionMode st); [|split; [left; reflexivity|reflexivity]].
  destruct (filter _ _) as [|e l] eqn:F; [split; [right; reflexivity|reflexivity]|].
  destruct (bbox_some (e :: l) ltac:(discriminate)) as (a & b & c & d & B).
  unfold getBoundingBox. rewrite B. split; [discriminate|intros [H|H]; discriminate].
Qed.

Lemma resize_op_effect (p : Provider) (dir : ResizeDirection) (start : Point)
    (moves : list Point) :
  let ids := selectedIds (state p) in
  let q := runOp p (OpResize dir start moves) in
  match resizeStart (state p) ids dir start, moves with
  | None, _ => q = p
  | Some _, [] => q = p
  | Some r, _ =>
      let m := last moves start in
      elements (state q)
        = map (resizeElement (rr_info r) (px m - px start) (py m - py start))
              (elements (state p))
      /\ history (state q) = history (state p) ++ [elements (state p)]
      /\ redoStack (state q) = []
      /\ selectedIds (state q) = ids
      /\ elements (state (undo q)) = elements (state p)
      /\ history (state (undo q)) = history (state p)
  end.
Proof.
  intros ids q. subst q.
  rewrite runOp_resize. subst ids.
  destruct (resizeStart (state p) (selectedIds (state p)) dir start) as [r|] eqn:R;
    [|reflexivity].
  destruct (resizeStart_some _ _ _ _ _ R) as (Hm & Hmv & Hsp & Hhs & _).
  pose proof (runResize_spec p r moves Hmv) as Hrs.
  destruct moves as [|m0 ms]; [exact Hrs|].
  destruct Hrs as (E & H & Rd & S). rewrite Hsp, Hhs in *.
  unfold resizedAt in E. rewrite Hsp in E.
  split; [exact E|split; [exact H|split; [exact Rd|split; [exact S|]]]].
  unfold undo, dispatch, canvasReducer. rewrite H, match_snoc. cbn.
  rewrite last_last, removelast_last. split; reflexivity.
Qed.

(** X15. A resize gesture through a handle: nothing starts in pan mode or when
    no selected id names an element, and a gesture without pointer moves
    changes nothing. Otherwise the elements are those resized by the last
    pointer offset, one history entry (the elements at the start) is recorded,
    the redo stack is cleared, the selection is kept, and one [undo] restores
    the elements and the history. *)
Theorem resize_gesture_one_step (p : Provider) (dir : ResizeDirection) (start : Point)
    (moves : list Point) :
  let ids := selectedIds (state p) in
  let q := runOp p (OpResize dir start moves) in
  (resizeStart (state p) ids dir start = None
   <-> interactionMode (state p) = mode_pan
       \/ filter (fun el => includes ids (el_id el)) (elements (state p)) = [])
  /\ match resizeStart (state p) ids dir start, moves with
     | None, _ => q = p
     | Some _, [] => q = p
     | Some r, _ =>
         let m := last moves start in
         elements (state q)
           = map (resizeElement (rr_info r) (px m - px start) (py m - py start))
                 (elements (state p))
         /\ history (state q) = history (state p) ++ [elements (state p)]
         /\ redoStack (state q) = []
         /\ selectedIds (state q) = ids
         /\ elements (state (undo q)) = elements (state p)
         /\ history (state (undo q)) = history (state p)
     end.
Proof.
  intros ids q. split; [apply resizeStart_none|apply resize_op_effect].
Qed.

Lemma bbox_nonneg_extent (l : list CanvasElement) minX minY maxX maxY :
  bbox l = Some (minX, minY, maxX, maxY) ->
  Forall (fun e => 0 <= el_width e /\ 0 <= el_height e) l ->
  0 <= maxX - minX /\ 0 <= maxY - minY.
Proof.
  intros B F. destruct (bbox_spec l _ _ _ _ B) as (Hin & (e1 & I1 & X1) & (e2 & I2 & Y2) & _).
  rewrite Forall_forall in F.
  destruct (Hin e1 I1) as (_ & _ & P3 & _). destruct (Hin e2 I2) as (_ & _ & _ & P4).
  destruct (F e1 I1) as [W1 _]. destruct (F e2 I2) as [_ H2].
  split; lra.
Qed.

(** X16. A resize gesture whose pointer ends where it started, on elements with
    distinct ids and non-negative sizes, leaves every element's box as it was,
    but still records one history entry and clears the redo stack. *)
Theorem resize_back_to_start (p : Provider) (dir : ResizeDirection) (start : Point)
    (moves : list Point) :
  interactionMode (state p) = mode_select ->
  filter (fun el => includes (selectedIds (state p)) (el_id el)) (elements (state p)) <> [] ->
  NoDup (map el_id (elements (state p))) ->
  Forall (fun e => 0 <= el_width e /\ 0 <= el_height e) (elements (state p)) ->
  moves <> [] ->
  px (last moves start) == px start -> py (last moves start) == py start ->
  let q := runOp p (OpResize dir start moves) in
  Forall2 (fun e' e => el_id e' = el_id e /\ rectEq (elemRect e') (elemRect e))
    (elements (state q)) (elements (state p))
  /\ history (state q) = history (state p) ++ [elements (state p)]
  /\ redoStack (state q) = [].
Proof.
  intros Hm Hsel Hnd Hpos Hmv Ex Ey q. subst q.
  destruct (resizeStart (state p) (selectedIds (state p)) dir start) as [r|] eqn:R.
  2: { apply resizeStart_none in R as [R|R]; congruence. }
  pose proof (resize_op_effect p dir start moves) as G.
  cbv zeta in G. rewrite R in G.
  destruct moves as [|m0 ms]; [congruence|].
  destruct G as (E & H & Rd & _). rewrite E.
  split; [|split; assumption].
  destruct (resizeStart_some _ _ _ _ _ R) as (_ & _ & _ & _ & Hids & _ & Hse & Hbb).
  set (S := filter (fun el => includes (selectedIds (state p)) (el_id el)) (elements (state p))) in *.
  unfold getBoundingBox in Hbb.
  destruct (bbox S) as [[[[a b] c] d]|] eqn:B; [|discriminate].
  injection Hbb as Hsb.
  assert (HposS : Forall (fun e => 0 <= el_width e /\ 0 <= el_height e) S)
    by (apply Forall_forall; intros e He; apply filter_In in He as [He _];
        rewrite Forall_forall in Hpos; apply Hpos, He).
  destruct (bbox_nonneg_extent S _ _ _ _ B HposS) as [Nw Nh].
  set (info := rr_info r) in *.
  set (sb := startBounds info) in *.
  assert (Zw : 0 <= rw sb) by (rewrite <- Hsb; exact Nw).
  assert (Zh : 0 <= rh sb) by (rewrite <- Hsb; exact Nh).
  assert (Dx : px (last (m0 :: ms) start) - px start == 0) by (rewrite Ex; ring).
  assert (Dy : py (last (m0 :: ms) start) - py start == 0) by (rewrite Ey; ring).
  destruct (computeNewBounds_zero (direction info) sb _ _ Zw Zh Dx Dy) as (R1 & R2 & R3 & R4).
  set (nb := computeNewBounds (direction info) sb _ _) in *.
  assert (Hall : forall e, In e (elements (state p)) ->
            el_id (resizeElement info (px (last (m0 :: ms) start) - px start)
                     (py (last (m0 :: ms) start) - py start) e) = el_id e
            /\ rectEq (elemRect (resizeElement info (px (last (m0 :: ms) start) - px start)
                     (py (last (m0 :: ms) start) - py start) e)) (elemRect e)).
  { intros e He.
    destruct (includes (ri_ids info) (el_id e)) eqn:Inc.
    - assert (Hs : startElements info (el_id e) = Some e).
      { rewrite Hse. apply recordOf_in; [apply NoDup_map_filter, Hnd|].
        apply filter_In; split; [exact He|]. rewrite <- Hids; exact Inc. }
      destruct (resizeElement_selected info (px (last (m0 :: ms) start) - px start) (py (last (m0 :: ms) start) - py start) e e Inc Hs) as (I & X & Y & W & H').
      fold sb in X, Y, W, H'. fold nb in X, Y, W, H'.
      assert (Sx : scaleOf (rw nb) (rw sb) == 1) by (apply scaleOf_same, R3).
      assert (Sy : scaleOf (rh nb) (rh sb) == 1) by (apply scaleOf_same, R4).
      rewrite Forall_forall in Hpos. destruct (Hpos e He) as [Pw Ph].
      split; [exact I|]. unfold rectEq, elemRect; cbn [rx ry rw rh].
      rewrite X, Y, W, H', Sx, Sy, R1, R2, !Qmult_1_r.
      split; [ring|split; [ring|split; apply Q.max_r; assumption]].
    - unfold resizeElement. rewrite Inc. simpl.
      split; [reflexivity|]. unfold rectEq; repeat split; reflexivity. }
  clear -Hall. induction (elements (state p)) as [|e l IH]; simpl; constructor.
  - apply Hall; left; reflexivity.
  - apply IH. intros e' He'. apply Hall; right; exact He'.
Qed.

Lemma el_id_set_xy (e : CanvasElement) a b : el_id (set_xy e a b) = el_id e.
Proof. unfold el_id, set_xy; rewrite base_of_with_base; reflexivity. Qed.

Lemma set_xy_set_xy (e : CanvasElement) a b c d : set_xy (set_xy e a b) c d = set_xy e c d.
Proof. destruct e; reflexivity. Qed.

Lemma el_id_moveBy sel o e : el_id (moveBy sel o e) = el_id e.
Proof.
  unfold moveBy. destruct (includes sel (el_id e)); [|reflexivity].
  destruct o as [[]|]; [apply el_id_set_xy|reflexivity].
Qed.

Lemma dragMoves_spec (ms : list Point) : forall p d o els0,
  drag_snapshot d = recordOf (filter (fun e => includes (drag_ids d) (el_id e)) els0) ->
  NoDup (map el_id els0) ->
  elements (state p) = map (moveBy (drag_ids d) o) els0 ->
  drag_moved d = match o with Some _ => true | None => false end ->
  let o' := match lastDragOffset (drag_startPointer d) ms with Some v => Some v | None => o end in
  elements (state (fst (dragMoves p d ms))) = map (moveBy (drag_ids d) o') els0
  /\ drag_moved (snd (dragMoves p d ms)) = match o' with Some _ => true | None => false end
  /\ drag_historySnapshot (snd (dragMoves p d ms)) = drag_historySnapshot d
  /\ history (state (fst (dragMoves p d ms))) = history (state p)
  /\ redoStack (state (fst (dragMoves p d ms))) = redoStack (state p)
  /\ selectedIds (state (fst (dragMoves p d ms))) = selectedIds (state p).
Proof.
  induction ms as [|m ms IH]; intros p d o els0 Hs Hnd He Hm; cbv zeta;
    [simpl; repeat split; assumption|].
  cbn [dragMoves lastDragOffset].
  destruct (dragMove p d m) as [p1 d1] eqn:Dm.
  unfold dragMove in Dm.
  destruct (negb (Qle_bool (Qabs (px m - px (drag_startPointer d))) (1#100))
            || negb (Qle_bool (Qabs (py m - py (drag_startPointer d))) (1#100))) eqn:Big.
  - injection Dm as <- <-.
    set (o1 := Some (px m - px (drag_startPointer d), py m - py (drag_startPointer d))).
    match goal with |- context [dragMoves ?P ?D ms] =>
      destruct (IH P D o1 els0 Hs Hnd) as (I1 & I2 & I3 & I4 & I5 & I6); simpl end.
    + cbn [mutateElements dispatch canvasReducer elements state opt_recordHistory opt_historySnapshot drag_ids]. unfold deepCopy. rewrite He, map_map. apply map_ext_in. intros e Hin.
      rewrite el_id_moveBy. unfold moveBy.
      destruct (includes (drag_ids d) (el_id e)) eqn:Inc; simpl; [|reflexivity].
      rewrite Hs, recordOf_in.
      * destruct o as [[]|]; rewrite ?set_xy_set_xy; reflexivity.
      * apply NoDup_map_filter, Hnd.
      * apply filter_In; split; assumption.
    + reflexivity.
    + cbv zeta in I1, I2.
      cbn [mutateElements dispatch canvasReducer state history redoStack selectedIds
           drag_ids drag_startPointer drag_historySnapshot opt_recordHistory] in I1, I2, I3, I4, I5, I6.
      unfold dragOffset. rewrite Big.
      destruct (lastDragOffset (drag_startPointer d) ms); repeat split; assumption.
  - injection Dm as <- <-.
    destruct (IH p d o els0 Hs Hnd He Hm) as (I1 & I2 & I3 & I4 & I5 & I6).
    unfold dragOffset. rewrite Big.
    destruct (lastDragOffset (drag_startPointer d) ms); repeat split; assumption.
Qed.

Lemma runDrag_spec (p : Provider) (d : DragRef) (ms : list Point) els0 :
  drag_snapshot d = recordOf (filter (fun e => includes (drag_ids d) (el_id e)) els0) ->
  NoDup (map el_id els0) ->
  elements (state p) = els0 ->
  drag_moved d = false ->
  let q := runDrag p d ms in
  match lastDragOffset (drag_startPointer d) ms with
  | None => elements (state q) = els0 /\ history (state q) = history (state p)
            /\ redoStack (state q) = redoStack (state p)
            /\ selectedIds (state q) = selectedIds (state p)
  | Some o => elements (state q) = map (moveBy (drag_ids d) (Some o)) els0
            /\ history (state q) = history (state p) ++ [drag_historySnapshot d]
            /\ redoStack (state q) = []
            /\ selectedIds (state q) = selectedIds (state p)
  end.
Proof.
  intros Hs Hnd He Hm q. subst q.
  assert (Hr : runDrag p d ms = dragRelease (fst (dragMoves p d ms)) (snd (dragMoves p d ms)))
    by (unfold runDrag; destruct (dragMoves p d ms); reflexivity).
  assert (He' : elements (state p) = map (moveBy (drag_ids d) None) els0).
  { rewrite He. symmetry. rewrite <- map_id. apply map_ext. intros e.
    unfold moveBy. destruct (includes _ _); reflexivity. }
  destruct (dragMoves_spec ms p d None els0 Hs Hnd He' Hm) as (I1 & I2 & I3 & I4 & I5 & I6).
  cbv zeta in *. rewrite Hr. unfold dragRelease.
  destruct (lastDragOffset (drag_startPointer d) ms) as [o|]; rewrite I2.
  - unfold mutateElements, dispatch, canvasReducer; cbn.
    rewrite I1, I3, I4, I6. repeat split.
  - rewrite I1, I4, I5, I6. repeat split.
    rewrite <- He'; exact He.
Qed.

(** X17. Clicking the [n]-th element in select mode and dragging: the selection
    is the one set at pointer-down. If no pointer move passes the 0.01
    threshold, the elements, history and redo stack are unchanged. Otherwise the
    selected elements are moved by the last such offset, one history entry is
    recorded, the redo stack is cleared, and one [undo] restores the
    elements. *)
Theorem drag_gesture (p : Provider) (n : nat) (additive : bool) (start : Point)
    (moves : list Point) (el : CanvasElement) :
  interactionMode (state p) = mode_select ->
  nth_error (elements (state p)) n = Some el ->
  NoDup (map el_id (elements (state p))) ->
  let q := runOp p (OpClick n additive start moves) in
  let sel := selectedIds (state (fst (handleElementPointerDown p (el_id el) additive start))) in
  selectedIds (state q) = sel
  /\ match lastDragOffset start moves with
     | None => elements (state q) = elements (state p)
               /\ history (state q) = history (state p)
               /\ redoStack (state q) = redoStack (state p)
     | Some (dx, dy) =>
         elements (state q)
           = map (fun e => if includes sel (el_id e)
                           then set_xy e (el_x e + dx) (el_y e + dy) else e)
                 (elements (state p))
         /\ history (state q) = history (state p) ++ [elements (state p)]
         /\ redoStack (state q) = []
         /\ elements (state (undo q)) = elements (state p)
     end.
Proof.
  intros Hm Hn Hnd q sel. subst q sel.
  cbn [runOp]. rewrite Hn.
  unfold handleElementPointerDown. rewrite Hm.
  set (selection := if additive then _ else _).
  set (d := mkDragRef selection start _ _ false).
  cbn [fst snd].
  pose proof (runDrag_spec (setSelection p selection false) d moves (elements (state p))
              eq_refl Hnd eq_refl eq_refl) as R.
  cbn [drag_startPointer drag_ids drag_historySnapshot d] in R.
  destruct (lastDragOffset start moves) as [[dx dy]|].
  - destruct R as (E & H & Rd & S).
    split; [exact S|]. split; [exact E|]. split; [exact H|]. split; [exact Rd|].
    unfold undo, dispatch, canvasReducer. rewrite H, match_snoc. cbn.
    rewrite last_last. reflexivity.
  - destruct R as (E & H & Rd & S). repeat split; assumption.
Qed.

Lemma keyDowns_pressed (evs : list (bool * bool * bool)) : forall p ks,
  spacePressed ks = true -> keyDowns p ks evs = (p, ks).
Proof.
  induction evs as [|[[sp rp] ii] r IH]; intros p ks H; [reflexivity|].
  cbn [keyDowns]. unfold handleKeyDown. rewrite H.
  destruct (negb sp || rp); [apply IH, H|].
  destruct ii; apply IH, H.
Qed.

(** X18. Holding Space: the first [keydown] switches to pan mode, the mode stays
    pan through any further [keydown] events, the elements are untouched, and
    the [keyup] restores the provider exactly as it was and resets the key
    state. *)
Theorem space_hold_restores_mode (p : Provider) (evs : list (bool * bool * bool)) :
  let down := handleKeyDown p (mkKeyState false None) true false false in
  let held := keyDowns (fst down) (snd down) evs in
  let up := handleKeyUp (fst held) (snd held) true in
  interactionMode (state (fst held)) = mode_pan
  /\ elements (state (fst held)) = elements (state p)
  /\ fst up = p
  /\ snd up = mkKeyState false None.
Proof.
  intros down held up. subst up held down.
  unfold handleKeyDown at 1. cbn -[keyDowns].
  destruct (interactionMode (state p)) eqn:M.
  - rewrite keyDowns_pressed by reflexivity. cbn.
    split; [reflexivity|split; [reflexivity|split; [|reflexivity]]].
    unfold setInteractionMode, dispatch, canvasReducer; cbn.
    destruct p as [[] ? ? ?]; cbn in *; subst; reflexivity.
  - rewrite keyDowns_pressed by reflexivity. cbn.
    repeat split; assumption.
Qed.

Lemma Qle_bool_compat (a a' b b' : Q) : a == a' -> b == b' -> Qle_bool a b = Qle_bool a' b'.
Proof.
  intros Ea Eb. destruct (Qle_bool a b) eqn:E1, (Qle_bool a' b') eqn:E2; try reflexivity.
  - apply Qle_bool_iff in E1. rewrite Ea, Eb in E1. apply Qle_bool_iff in E1. congruence.
  - apply Qle_bool_iff in E2. rewrite <- Ea, <- Eb in E2. apply Qle_bool_iff in E2. congruence.
Qed.

Lemma sel_max (u v : Q) : (if Qlt_le_dec u v then v else u) == Qmax u v.
Proof.
  destruct (Qlt_le_dec u v) as [H|H].
  - symmetry. apply Q.max_r. apply Qlt_le_weak, H.
  - symmetry. apply Q.max_l, H.
Qed.

Lemma sel_min (u v : Q) : (if Qlt_le_dec v u then v else u) == Qmin u v.
Proof.
  destruct (Qlt_le_dec v u) as [H|H].
  - symmetry. apply Q.min_r. apply Qlt_le_weak, H.
  - symmetry. apply Q.min_l, H.
Qed.

Lemma rect_intersects_eq (a o : Rect) :
  rect_intersects a o
  = if Qle_bool (Qmin (rx a + rw a) (rx o + rw o)) (Qmax (rx a) (rx o)) then false
    else negb (Qle_bool (Qmin (ry a + rh a) (ry o + rh o)) (Qmax (ry a) (ry o))).
Proof.
  unfold rect_intersects.
  rewrite (Qle_bool_compat _ _ _ _ (sel_min _ _) (sel_max _ _)).
  rewrite (Qle_bool_compat _ _ _ _ (sel_min (ry a + rh a) (ry o + rh o)) (sel_max (ry a) (ry o))).
  reflexivity.
Qed.

Lemma rect_intersects_compat (a a' o : Rect) :
  rectEq a a' -> rect_intersects a o = rect_intersects a' o.
Proof.
  intros (E1 & E2 & E3 & E4). rewrite !rect_intersects_eq.
  rewrite (Qle_bool_compat (Qmin (rx a + rw a) (rx o + rw o)) (Qmin (rx a' + rw a') (rx o + rw o))
             (Qmax (rx a) (rx o)) (Qmax (rx a') (rx o))) by (rewrite ?E1, ?E3; reflexivity).
  rewrite (Qle_bool_compat (Qmin (ry a + rh a) (ry o + rh o)) (Qmin (ry a' + rh a') (ry o + rh o))
             (Qmax (ry a) (ry o)) (Qmax (ry a') (ry o))) by (rewrite ?E2, ?E4; reflexivity).
  reflexivity.
Qed.

Lemma rect_intersects_iff (a o : Rect) :
  rect_intersects a o = true
  <-> Qmax (rx a) (rx o) < Qmin (rx a + rw a) (rx o + rw o)
      /\ Qmax (ry a) (ry o) < Qmin (ry a + rh a) (ry o + rh o).
Proof.
  rewrite rect_intersects_eq.
  destruct (Qle_bool (Qmin (rx a + rw a) (rx o + rw o)) (Qmax (rx a) (rx o))) eqn:E1.
  - apply Qle_bool_iff in E1. split; [discriminate|]. intros [H _].
    exfalso. apply (Qlt_not_le _ _ H), E1.
  - assert (H1 : Qmax (rx a) (rx o) < Qmin (rx a + rw a) (rx o + rw o)).
    { apply Qnot_le_lt. intros H. apply Qle_bool_iff in H. congruence. }
    destruct (Qle_bool (Qmin (ry a + rh a) (ry o + rh o)) (Qmax (ry a) (ry o))) eqn:E2.
    + apply Qle_bool_iff in E2. split; [discriminate|]. intros [_ H].
      exfalso. apply (Qlt_not_le _ _ H), E2.
    + split; [intros _; split; [exact H1|]|reflexivity].
      apply Qnot_le_lt. intros H. apply Qle_bool_iff in H. congruence.
Qed.

Lemma rect_intersects_grow (a a' o : Rect) :
  rx a' <= rx a -> rx a + rw a <= rx a' + rw a' ->
  ry a' <= ry a -> ry a + rh a <= ry a' + rh a' ->
  rect_intersects a o = true -> rect_intersects a' o = true.
Proof.
  intros X0 X1 Y0 Y1 H. apply rect_intersects_iff in H as [Hx Hy].
  apply rect_intersects_iff. split.
  - apply (Qle_lt_trans _ (Qmax (rx a) (rx o))); [apply Q.max_le_compat_r, X0|].
    apply (Qlt_le_trans _ (Qmin (rx a + rw a) (rx o + rw o))); [exact Hx|].
    apply Q.min_le_compat_r, X1.
  - apply (Qle_lt_trans _ (Qmax (ry a) (ry o))); [apply Q.max_le_compat_r, Y0|].
    apply (Qlt_le_trans _ (Qmin (ry a + rh a) (ry o + rh o))); [exact Hy|].
    apply Q.min_le_compat_r, Y1.
Qed.

(** X19. In an unzoomed, unpanned view, with the marquee box padded by
    [pad >= 0] (the half stroke width [getBounds] adds), a marquee selects
    every element whose box overlaps the rectangle spanned by the two pointer
    positions, and only elements whose box overlaps that rectangle grown by
    [pad] on every side; elements and history are unchanged. *)
Theorem marquee_unpanned_view (p : Provider) (pad : Q) (start cur : Point) :
  zoom (state p) == 1 -> px (pan (state p)) == 0 -> py (pan (state p)) == 0 -> 0 <= pad ->
  let q := marqueeRelease p pad start cur in
  (forall el, In el (elements (state p)) -> marqueeSpecSelects start cur el = true ->
     In (el_id el) (selectedIds (state q)))
  /\ (forall i, In i (selectedIds (state q)) ->
        exists el, In el (elements (state p)) /\ el_id el = i
                   /\ rect_intersects (growRect pad (marqueeLocalRect start cur)) (elemRect el)
                      = true)
  /\ elements (state q) = elements (state p)
  /\ history (state q) = history (state p).
Proof.
  intros Z X Y P q. subst q.
  assert (R : rectEq (worldBounds (state p) pad (marqueeLocalRect start cur))
                     (growRect pad (marqueeLocalRect start cur))).
  { unfold rectEq, worldBounds, growRect. cbn [rx ry rw rh]. rewrite Z, X, Y.
    repeat split; ring. }
  assert (F : filter (fun el => rect_intersects (worldBounds (state p) pad (marqueeLocalRect start cur))
                                  (elemRect el)) (elements (state p))
              = filter (fun el => rect_intersects (growRect pad (marqueeLocalRect start cur))
                                    (elemRect el)) (elements (state p))).
  { apply filter_ext. intros el. apply rect_intersects_compat, R. }
  assert (Sel : selectedIds (state (marqueeRelease p pad start cur))
                = map el_id (filter (fun el => rect_intersects
                      (growRect pad (marqueeLocalRect start cur)) (elemRect el))
                      (elements (state p)))).
  { unfold marqueeRelease. cbv zeta. rewrite F.
    destruct (filter (fun el => rect_intersects (growRect pad (marqueeLocalRect start cur))
                                  (elemRect el)) (elements (state p))); reflexivity. }
  assert (Els : elements (state (marqueeRelease p pad start cur)) = elements (state p)
                /\ history (state (marqueeRelease p pad start cur)) = history (state p)).
  { unfold marqueeRelease. destruct (filter _ _); split; reflexivity. }
  rewrite Sel. split; [|split; [|exact Els]].
  - intros el Hin Hs. apply in_map, filter_In. split; [exact Hin|].
    unfold marqueeSpecSelects in Hs.
    apply (rect_intersects_grow (marqueeLocalRect start cur)); [..|exact Hs];
      unfold growRect; cbn [rx ry rw rh]; lra.
  - intros i Hi. apply in_map_iff in Hi as (el & <- & He).
    apply filter_In in He as [He Hr]. exists el. split; [exact He|split; [reflexivity|exact Hr]].
Qed.


Lemma idsBelow_mono (s s' : N) (S : Snapshot) : (s <= s')%N -> idsBelow s S -> idsBelow s' S.
Proof.
  intros Hs [Hnd Hr]. split; [exact Hnd|]. intros i Hi.
  destruct (Hr i Hi) as (k & Hk & ->). exists k; split; [lia|reflexivity].
Qed.

Lemma idsBelow_app (s s' : N) (S N0 : Snapshot) :
  idsBelow s S -> NoDup (map el_id N0) ->
  (forall i, In i (map el_id N0) -> exists k, (s <= k < s')%N /\ i = createId k) ->
  (s <= s')%N -> idsBelow s' (S ++ N0).
Proof.
  intros [Hnd Hr] Hnd2 Hr2 Hs. split.
  - rewrite map_app. apply NoDup_app; [exact Hnd|exact Hnd2|].
    intros a Ha Hb. destruct (Hr a Ha) as (k1 & K1 & ->).
    destruct (Hr2 _ Hb) as (k2 & K2 & E). apply createId_inj in E. lia.
  - intros i Hi. rewrite map_app in Hi. apply in_app_or in Hi as [Hi|Hi].
    + destruct (Hr i Hi) as (k & Hk & ->). exists k; split; [lia|reflexivity].
    + destruct (Hr2 i Hi) as (k & Hk & ->). exists k; split; [lia|reflexivity].
Qed.

Lemma idsBelow_filter (s : N) (P : CanvasElement -> bool) (S : Snapshot) :
  idsBelow s S -> idsBelow s (filter P S).
Proof.
  intros [Hnd Hr]. split; [apply NoDup_map_filter, Hnd|].
  intros i Hi. apply Hr. apply in_map_iff in Hi as (e & <- & He).
  apply filter_In in He as [He _]. apply in_map, He.
Qed.

Lemma idsBelow_same_ids (s : N) (S S' : Snapshot) :
  map el_id S' = map el_id S -> idsBelow s S -> idsBelow s S'.
Proof. intros E H. unfold idsBelow. rewrite E. exact H. Qed.

Lemma provIdsOk_mono (p q : Provider) :
  elements (state q) = elements (state p) -> history (state q) = history (state p)
  -> redoStack (state q) = redoStack (state p) -> (idSeed p <= idSeed q)%N ->
  provIdsOk p -> provIdsOk q.
Proof.
  intros E H R S (P1 & P2 & P3). unfold provIdsOk. rewrite E, H, R.
  split; [apply (idsBelow_mono _ _ _ S P1)|].
  split; eapply Forall_impl; try eassumption; intros a; apply idsBelow_mono, S.
Qed.

Lemma provIdsOk_dispatch (p : Provider) (a : Action) :
  match a with SET_ELEMENTS _ _ _ => False | _ => True end ->
  provIdsOk p -> provIdsOk (dispatch p a).
Proof.
  intros Ha (P1 & P2 & P3). destruct a; try contradiction;
    try (unfold provIdsOk, dispatch, canvasReducer; cbn; split; [exact P1|split; assumption]).
  - unfold provIdsOk, dispatch, canvasReducer; cbn.
    destruct (history (state p)) as [|h t] eqn:Eh; [split; [exact P1|split; [rewrite Eh; constructor|assumption]]|].
    rewrite <- Eh in P2 |- *.
    assert (Hh : history (state p) = removelast (history (state p)) ++ [last (history (state p)) []])
      by (apply app_removelast_last; rewrite Eh; discriminate).
    rewrite Hh in P2. apply Forall_app in P2 as [Q1 Q2]. inversion Q2 as [|? ? Q3 _]; subst.
    split; [exact Q3|split; [exact Q1|constructor; [exact P1|exact P3]]].
  - unfold provIdsOk, dispatch, canvasReducer; cbn.
    destruct (redoStack (state p)) as [|h t] eqn:Er; [split; [exact P1|split; [assumption|rewrite Er; constructor]]|].
    inversion P3; subst. cbn.
    split; [assumption|split; [apply Forall_app; split; [assumption|constructor; [assumption|constructor]]|assumption]].
Qed.

Lemma provIdsOk_mutate (p : Provider) (f : list CanvasElement -> list CanvasElement)
    (o : MutateOptions) :
  provIdsOk p -> idsBelow (idSeed p) (f (elements (state p))) ->
  (forall h, opt_historySnapshot o = Some h -> idsBelow (idSeed p) h) ->
  provIdsOk (mutateElements p f o).
Proof.
  intros (P1 & P2 & P3) Hf Hh. unfold provIdsOk, mutateElements, dispatch, canvasReducer; cbn.
  unfold deepCopy. split; [exact Hf|].
  destruct (match opt_recordHistory o with Some b => b | None => true end).
  - split; [|constructor]. apply Forall_app; split; [exact P2|].
    constructor; [|constructor].
    destruct (opt_historySnapshot o) as [h|]; [apply Hh; reflexivity|exact P1].
  - split; assumption.
Qed.

Lemma provIdsOk_seed (p : Provider) (s : N) :
  (idSeed p <= s)%N -> provIdsOk p ->
  provIdsOk (mkProvider (state p) (clipboardRef p) (pasteCountRef p) s).
Proof. intros Hs. apply provIdsOk_mono; try reflexivity. exact Hs. Qed.

Lemma provIdsOk_add (p : Provider) (e : CanvasElement) :
  provIdsOk p -> el_id e = createId (idSeed p) ->
  provIdsOk (mutateElements (mkProvider (state p) (clipboardRef p) (pasteCountRef p)
                               (N.succ (idSeed p))) (fun els => els ++ [e]) noOptions).
Proof.
  intros P He. apply provIdsOk_mutate; [apply provIdsOk_seed; [lia|exact P]| |discriminate].
  cbn. destruct P as (P1 & _).
  apply (idsBelow_app (idSeed p)); [exact P1|repeat constructor; intros []|..|lia].
  intros i [<-|[]]. exists (idSeed p). split; [lia|exact He].
Qed.

Lemma map_el_id_ext (f : CanvasElement -> CanvasElement) (els : list CanvasElement) :
  (forall e, el_id (f e) = el_id e) -> map el_id (map f els) = map el_id els.
Proof. intros H. rewrite map_map. apply map_ext, H. Qed.

Lemma provIdsOk_mutate_ids (p : Provider) (f : list CanvasElement -> list CanvasElement)
    (o : MutateOptions) :
  provIdsOk p -> map el_id (f (elements (state p))) = map el_id (elements (state p)) ->
  (forall h, opt_historySnapshot o = Some h -> idsBelow (idSeed p) h) ->
  provIdsOk (mutateElements p f o).
Proof.
  intros P Hf Hh. apply provIdsOk_mutate; [exact P| |exact Hh].
  apply (idsBelow_same_ids _ _ _ Hf). apply P.
Qed.

Lemma runDrag_cons (p : Provider) (d : DragRef) (m : Point) (ms : list Point) :
  runDrag p d (m :: ms) = runDrag (fst (dragMove p d m)) (snd (dragMove p d m)) ms.
Proof. unfold runDrag; cbn [dragMoves]. destruct (dragMove p d m); reflexivity. Qed.

Lemma runResize_cons (p : Provider) (r : ResizeRef) (m : Point) (ms : list Point) :
  runResize p r (m :: ms) = runResize (fst (resizeMove p r m)) (snd (resizeMove p r m)) ms.
Proof. unfold runResize; cbn [resizeMoves]. destruct (resizeMove p r m); reflexivity. Qed.

Lemma provIdsOk_runDrag (ms : list Point) : forall p d,
  provIdsOk p -> idsBelow (idSeed p) (drag_historySnapshot d) -> provIdsOk (runDrag p d ms).
Proof.
  induction ms as [|m ms IH]; intros p d P Hh.
  - unfold runDrag; cbn [dragMoves]. unfold dragRelease.
    destruct (drag_moved d); [|exact P].
    apply provIdsOk_mutate_ids; [exact P|reflexivity|]. intros h E. injection E as <-. exact Hh.
  - rewrite runDrag_cons. unfold dragMove.
    destruct (_ || _); cbn [fst snd]; apply IH; try exact Hh; try exact P.
    apply provIdsOk_mutate_ids; [exact P| |discriminate].
    apply map_el_id_ext. intros e. destruct (negb _); [reflexivity|apply el_id_set_xy].
Qed.

Lemma provIdsOk_runResize (ms : list Point) : forall p r,
  provIdsOk p -> idsBelow (idSeed p) (rr_historySnapshot r) -> provIdsOk (runResize p r ms).
Proof.
  induction ms as [|m ms IH]; intros p r P Hh.
  - unfold runResize; cbn [resizeMoves]. unfold resizeRelease.
    destruct (rr_moved r); [|exact P].
    apply provIdsOk_mutate_ids; [exact P|reflexivity|]. intros h E. injection E as <-. exact Hh.
  - rewrite runResize_cons. cbn [resizeMove fst snd]. apply IH; [|exact Hh].
    apply provIdsOk_mutate_ids; [exact P| |discriminate].
    apply map_el_id_ext. intros e. apply el_id_resizeElement.
Qed.

Lemma pasteItems_ids (cb : list CanvasElement) (offset : Q) : forall seed els ids seed',
  pasteItems cb offset seed = (els, ids, seed') -> ids = freshIds seed (List.length cb).
Proof.
  induction cb as [|item rest IH]; intros seed els ids seed' H; simpl in H.
  - injection H as _ <- _. reflexivity.
  - destruct (pasteItems rest offset (N.succ seed)) as [[els' ids'] s''] eqn:Hr.
    injection H as _ <- _. simpl. f_equal. eapply IH, Hr.
Qed.

Lemma provIdsOk_runOp (p : Provider) (o : Op) : provIdsOk p -> provIdsOk (runOp p o).
Proof.
  intros P. destruct o; cbn [runOp].
  - unfold addShape; cbn [nextId]. apply provIdsOk_dispatch; [exact I|].
    apply provIdsOk_add; [exact P|reflexivity].
  - unfold addText; cbn [nextId]. apply provIdsOk_dispatch; [exact I|].
    apply provIdsOk_add; [exact P|reflexivity].
  - unfold addImage; cbn [nextId]. apply provIdsOk_dispatch; [exact I|].
    apply provIdsOk_add; [exact P|reflexivity].
  - unfold copy. destruct (filter _ _); [exact P|].
    apply (provIdsOk_mono p); try reflexivity; try lia; exact P.
  - unfold paste. destruct (clipboardRef p) as [|c cr] eqn:Ec; [exact P|].
    destruct (pasteItems (c :: cr) (inject_Z (20 * pasteCountRef p)) (idSeed p))
      as [[nels nids] s'] eqn:Hp.
    destruct (pasteItems_spec _ _ _ _ _ _ Hp) as (_ & Hids & Hs & _).
    pose proof (pasteItems_ids _ _ _ _ _ _ Hp) as Hf.
    apply (provIdsOk_mono (dispatch (mutateElements
             (mkProvider (state p) (clipboardRef p) (pasteCountRef p) s')
             (fun prev => prev ++ nels) noOptions) (SET_SELECTION nids false)));
      try reflexivity; try lia.
    apply provIdsOk_dispatch; [exact I|].
    apply provIdsOk_mutate; [|cbn [state elements]|discriminate].
    + apply provIdsOk_seed; [lia|exact P].
    + cbn [idSeed]. rewrite Hids in Hf. destruct P as (P1 & _).
      apply (idsBelow_app (idSeed p)); [exact P1| | |lia].
      * rewrite Hf. apply freshIds_NoDup.
      * rewrite Hf. intros i Hi.
        assert (Hr : forall s m, In i (freshIds s m) -> exists k, (s <= k < s + N.of_nat m)%N /\ i = createId k).
        { intros s m. revert s. induction m as [|m IH]; intros s H; [destruct H|].
          destruct H as [E|H].
          - exists s. split; [lia|symmetry; exact E].
          - destruct (IH _ H) as (k & Hk & ->). exists k; split; [lia|reflexivity]. }
        destruct (Hr _ _ Hi) as (k & Hk & ->). exists k; split; [lia|reflexivity].
  - unfold groupElements. destruct (Nat.leb _ 1); [exact P|].
    destruct (bbox _) as [[[[minX minY] maxX] maxY]|]; [|exact P].
    cbn [nextId]. apply provIdsOk_dispatch; [exact I|].
    apply provIdsOk_mutate; [apply provIdsOk_seed; [lia|exact P]| |discriminate].
    cbn [state idSeed]. destruct P as (P1 & _).
    apply (idsBelow_app (idSeed p)); [apply idsBelow_filter, P1|repeat constructor; intros []| |lia].
    intros i [<-|[]]. exists (idSeed p). split; [lia|reflexivity].
  - unfold ungroupElements. destruct (selectedIds (state p)) as [|sid [|? ?]]; try exact P.
    destruct (find_group _ _) as [[| | |gb kids]|]; try exact P.
    pose proof (processChildren_ids (idSeed p) (S (list_sum (map el_size kids))) kids
                  (x gb) (y gb) (mkAcc [] [] (idSeed p)) ltac:(lia)
                  ltac:(unfold gcOk; cbn [accSeed groupChildren map]; split; [lia|split; [constructor|intros i []]])) as (G1 & G2 & G3).
    apply provIdsOk_dispatch; [exact I|].
    apply provIdsOk_mutate; [apply provIdsOk_seed; [exact G1|exact P]| |discriminate].
    cbn [state idSeed]. destruct P as (P1 & _).
    apply (idsBelow_app (idSeed p)); [apply idsBelow_filter, P1|exact G2|exact G3|exact G1].
  - unfold deleteSelected. destruct (selectedIds (state p)); [exact P|].
    apply provIdsOk_dispatch; [exact I|].
    apply provIdsOk_mutate; [exact P| |discriminate]. apply idsBelow_filter, P.
  - apply provIdsOk_dispatch; [exact I|exact P].
  - apply provIdsOk_dispatch; [exact I|exact P].
  - apply provIdsOk_dispatch; [exact I|exact P].
  - apply provIdsOk_dispatch; [exact I|exact P].
  - apply provIdsOk_dispatch; [exact I|exact P].
  - apply provIdsOk_dispatch; [exact I|exact P].
  - apply provIdsOk_dispatch; [exact I|exact P].
  - destruct (nth_error _ n); [|exact P].
    unfold handleElementPointerDown. destruct (interactionMode (state p)); [|exact P].
    apply provIdsOk_runDrag; [apply provIdsOk_dispatch; [exact I|exact P]|apply P].
  - unfold handleSelectionBoxPointerDown. destruct (interactionMode (state p)); [|exact P].
    apply provIdsOk_runDrag; [exact P|apply P].
  - unfold resizeStart. destruct (interactionMode (state p)); [|exact P].
    destruct (handleResizeStart _ _ _); [|exact P].
    apply provIdsOk_runResize; [exact P|apply P].
  - destruct (interactionMode (state p)); [|exact P].
    unfold marqueeRelease. destruct (filter _ _); apply provIdsOk_dispatch; try exact I; exact P.
Qed.

(** X20. From the initial provider, after any sequence of user operations, the
    element ids are pairwise distinct, and so are those of every snapshot kept
    on the undo and redo stacks ([crypto.randomUUID] being the counter of
    [createId], which never repeats). *)
Theorem ids_unique (ops : list Op) :
  let p := runOps initialProvider ops in
  NoDup (map el_id (elements (state p)))
  /\ Forall (fun S => NoDup (map el_id S)) (history (state p) ++ redoStack (state p)).
Proof.
  intros p.
  assert (H : forall q, provIdsOk q -> provIdsOk (runOps q ops)).
  { unfold runOps. induction ops as [|o ops IH]; intros q Q; [exact Q|].
    cbn [fold_left]. apply IH, provIdsOk_runOp, Q. }
  destruct (H initialProvider) as (P1 & P2 & P3).
  - split; [split; [constructor|intros i []]|split; constructor].
  - split; [apply P1|]. apply Forall_app; split;
      [eapply Forall_impl; [|exact P2]|eapply Forall_impl; [|exact P3]]; intros a Ha; apply Ha.
Qed.

Lemma liveSel_mutate_ids (p : Provider) (f : list CanvasElement -> list CanvasElement)
    (o : MutateOptions) :
  liveSel p -> map el_id (f (elements (state p))) = map el_id (elements (state p)) ->
  liveSel (mutateElements p f o).
Proof. unfold liveSel, mutateElements, dispatch, canvasReducer; cbn. unfold deepCopy. intros L ->. exact L. Qed.

Lemma liveSel_runDrag (ms : list Point) : forall p d, liveSel p -> liveSel (runDrag p d ms).
Proof.
  induction ms as [|m ms IH]; intros p d P.
  - unfold runDrag; cbn [dragMoves]. unfold dragRelease.
    destruct (drag_moved d); [|exact P]. apply liveSel_mutate_ids; [exact P|reflexivity].
  - rewrite runDrag_cons. unfold dragMove.
    destruct (_ || _); cbn [fst snd]; apply IH; [|exact P].
    apply liveSel_mutate_ids; [exact P|].
    apply map_el_id_ext. intros e. destruct (negb _); [reflexivity|apply el_id_set_xy].
Qed.

Lemma liveSel_runResize (ms : list Point) : forall p r, liveSel p -> liveSel (runResize p r ms).
Proof.
  induction ms as [|m ms IH]; intros p r P.
  - unfold runResize; cbn [resizeMoves]. unfold resizeRelease.
    destruct (rr_moved r); [|exact P]. apply liveSel_mutate_ids; [exact P|reflexivity].
  - rewrite runResize_cons. cbn [resizeMove fst snd]. apply IH.
    apply liveSel_mutate_ids; [exact P|].
    apply map_el_id_ext. intros e. apply el_id_resizeElement.
Qed.

Lemma liveSel_select_appended (p : Provider) (f g : list CanvasElement -> list CanvasElement)
    (nels : list CanvasElement) (ids : list string) (o : MutateOptions) :
  (forall els, f els = g els ++ nels) -> incl ids (map el_id nels) ->
  liveSel (dispatch (mutateElements p f o) (SET_SELECTION ids false)).
Proof.
  intros Hf Hi. unfold liveSel, mutateElements, dispatch, canvasReducer; cbn.
  rewrite Hf, map_app. apply incl_appr, Hi.
Qed.

Lemma liveSel_runOp (p : Provider) (o : Op) :
  match o with OpUngroup | OpSelect _ _ => False | _ => True end ->
  liveSel p -> liveSel (runOp p o).
Proof.
  intros Ho P. destruct o; try contradiction; cbn [runOp].
  - unfold addShape; cbn [nextId].
    eapply liveSel_select_appended; [reflexivity|intros i [<-|[]]; left; reflexivity].
  - unfold addText; cbn [nextId].
    eapply liveSel_select_appended; [reflexivity|intros i [<-|[]]; left; reflexivity].
  - unfold addImage; cbn [nextId].
    eapply liveSel_select_appended; [reflexivity|intros i [<-|[]]; left; reflexivity].
  - unfold copy. destruct (filter _ _); exact P.
  - unfold paste. destruct (clipboardRef p) as [|c cr]; [exact P|].
    destruct (pasteItems (c :: cr) (inject_Z (20 * pasteCountRef p)) (idSeed p))
      as [[nels nids] s'] eqn:Hp.
    destruct (pasteItems_spec _ _ _ _ _ _ Hp) as (_ & Hids & _ & _).
    unfold liveSel; cbn [state].
    apply (liveSel_select_appended _ _ (fun els => els) nels); [reflexivity|rewrite Hids; apply incl_refl].
  - unfold groupElements. destruct (Nat.leb _ 1); [exact P|].
    destruct (bbox _) as [[[[minX minY] maxX] maxY]|]; [|exact P].
    cbn [nextId]. eapply liveSel_select_appended; [reflexivity|].
    intros i [<-|[]]; left; reflexivity.
  - unfold deleteSelected. destruct (selectedIds (state p)); [exact P|].
    intros i [].
  - unfold undo, liveSel, dispatch, canvasReducer; cbn.
    destruct (history (state p)); [exact P|intros i []].
  - unfold redo, liveSel, dispatch, canvasReducer; cbn.
    destruct (redoStack (state p)); [exact P|intros i []].
  - intros i [].
  - exact P.
  - exact P.
  - exact P.
  - destruct (nth_error (elements (state p)) n) as [el|] eqn:En; [|exact P].
    unfold handleElementPointerDown. destruct (interactionMode (state p)); [|exact P].
    apply liveSel_runDrag. unfold liveSel, setSelection, dispatch, canvasReducer; cbn.
    assert (Hel : In (el_id el) (map el_id (elements (state p))))
      by (apply in_map, (nth_error_In _ _ En)).
    destruct additive.
    + intros i Hi. unfold setFrom in Hi. apply dedup_aux_In in Hi as [Hi _].
      apply in_app_or in Hi as [Hi|[<-|[]]]; [apply P, Hi|exact Hel].
    + destruct (includes _ _); [exact P|intros i [<-|[]]; exact Hel].
  - unfold handleSelectionBoxPointerDown. destruct (interactionMode (state p)); [|exact P].
    apply liveSel_runDrag, P.
  - unfold resizeStart. destruct (interactionMode (state p)); [|exact P].
    destruct (handleResizeStart _ _ _); [|exact P]. apply liveSel_runResize, P.
  - destruct (interactionMode (state p)); [|exact P].
    unfold marqueeRelease. destruct (filter _ _) as [|e l] eqn:Ef; [intros i []|].
    unfold liveSel, setSelection, dispatch, canvasReducer; cbn [state elements selectedIds].
    rewrite <- Ef. intros i Hi. apply in_map_iff in Hi as (e' & <- & He').
    apply filter_In in He' as [He' _]. apply in_map, He'.
Qed.

(** X21. When every selected id names an element, it stays so after any
    sequence of user operations other than [ungroupElements] and an explicit
    [setSelection]. *)
Theorem selection_stays_live (p : Provider) (ops : list Op) :
  incl (selectedIds (state p)) (map el_id (elements (state p))) ->
  Forall (fun o => match o with OpUngroup | OpSelect _ _ => False | _ => True end) ops ->
  let q := runOps p ops in
  incl (selectedIds (state q)) (map el_id (elements (state q))).
Proof.
  intros H F q. subst q. unfold runOps. revert p H.
  induction F as [|o ops Ho _ IH]; intros p H; [exact H|].
  cbn [fold_left]. apply IH, liveSel_runOp; [exact Ho|exact H].
Qed.

(** ** Instances of the further theorems with hypotheses *)

(** [redo_undo_roundtrip] after adding a shape and undoing it. *)
Lemma redo_undo_roundtrip_witness :
  redoStack (state undoneDoc) <> []
  /\ elements (state (undo (redo undoneDoc))) = elements (state undoneDoc).
Proof.
  assert (H : redoStack (state undoneDoc) <> []) by (vm_compute; discriminate).
  split; [exact H|]. exact (proj1 (redo_undo_roundtrip undoneDoc H)).
Defined.

(** [update_missing_target] on A and B with the missing id Z. *)
Lemma update_missing_target_witness :
  ~ In "Z"%string (map el_id (elements (state groupDoc)))
  /\ elements (state (updateElement groupDoc "Z" (fun e => e))) = elements (state groupDoc).
Proof.
  assert (H : ~ In "Z"%string (map el_id (elements (state groupDoc))))
    by (vm_compute; intros [E|[E|[]]]; discriminate).
  split; [exact H|]. exact (proj1 (update_missing_target groupDoc "Z" (fun e => e) (fun e => e) H)).
Defined.

(** [deleteSelected_then_undo] with A and B selected. *)
Lemma deleteSelected_then_undo_witness :
  selectedIds (state groupDoc) <> []
  /\ elements (state (undo (deleteSelected groupDoc))) = elements (state groupDoc).
Proof.
  assert (H : selectedIds (state groupDoc) <> []) by (vm_compute; discriminate).
  split; [exact H|].
  destruct (deleteSelected_then_undo groupDoc H) as (_ & _ & E & _). exact E.
Defined.

(** [copy_paste_paste] with A and B selected. *)
Lemma copy_paste_paste_witness :
  filter (fun el => includes (selectedIds (state groupDoc)) (el_id el)) (elements (state groupDoc)) <> []
  /\ exists P1 P2,
       elements (state (paste (paste (copy groupDoc)))) = elements (state groupDoc) ++ P1 ++ P2
       /\ selectedIds (state (paste (paste (copy groupDoc)))) = map el_id P2.
Proof.
  assert (H : filter (fun el => includes (selectedIds (state groupDoc)) (el_id el))
                (elements (state groupDoc)) <> []) by (vm_compute; discriminate).
  split; [exact H|].
  destruct (copy_paste_paste groupDoc H) as (P1 & P2 & E & _ & _ & _ & S & _).
  exists P1, P2. split; [exact E|exact S].
Defined.

(** [group_encloses_children] on A(10,10,20,20) and B(50,10,10,10). *)
Lemma group_encloses_children_witness :
  (2 <= List.length (selectedIds (state groupDoc)))%nat
  /\ filter (fun el => includes (selectedIds (state groupDoc)) (el_id el)) (elements (state groupDoc)) <> []
  /\ exists gb kids,
       elements (state (groupElements groupDoc))
         = filter (fun el => negb (includes (selectedIds (state groupDoc)) (el_id el)))
             (elements (state groupDoc)) ++ [GroupElement gb kids]
       /\ selectedIds (state (groupElements groupDoc)) = [id gb].
Proof.
  assert (H1 : (2 <= List.length (selectedIds (state groupDoc)))%nat) by (vm_compute; lia).
  assert (H2 : filter (fun el => includes (selectedIds (state groupDoc)) (el_id el))
                 (elements (state groupDoc)) <> []) by (vm_compute; discriminate).
  split; [exact H1|]. split; [exact H2|].
  destruct (group_encloses_children groupDoc H1 H2) as (gb & kids & E & _ & S & _).
  exists gb, kids. split; [exact E|exact S].
Defined.

(** [side_handle_keeps_axis] on E(10,20,50,40) and its [e] handle. *)
Lemma side_handle_keeps_axis_witness :
  includes (ri_ids eHandleInfo) (el_id (rectEl "E" 10 20 50 40)) = true
  /\ startElements eHandleInfo (el_id (rectEl "E" 10 20 50 40)) = Some (rectEl "E" 10 20 50 40)
  /\ el_y (resizeElement eHandleInfo 30 7 (rectEl "E" 10 20 50 40)) == 20.
Proof.
  assert (H1 : includes (ri_ids eHandleInfo) (el_id (rectEl "E" 10 20 50 40)) = true)
    by reflexivity.
  assert (H2 : startElements eHandleInfo (el_id (rectEl "E" 10 20 50 40))
               = Some (rectEl "E" 10 20 50 40)) by reflexivity.
  split; [exact H1|]. split; [exact H2|].
  exact (proj1 (proj1 (side_handle_keeps_axis eHandleInfo 30 7 _ _ H1 H2) (or_introl eq_refl))).
Defined.

(** [resize_back_to_start]: E's [e] handle dragged by (25,3) and back. *)
Lemma resize_back_to_start_witness :
  interactionMode (state eHandleDoc) = mode_select
  /\ Forall2 (fun e' e => el_id e' = el_id e /\ rectEq (elemRect e') (elemRect e))
       (elements (state (runOp eHandleDoc (OpResize dir_e (mkPoint 0 0)
                                             [mkPoint 25 3; mkPoint 0 0]))))
       (elements (state eHandleDoc)).
Proof.
  assert (H1 : interactionMode (state eHandleDoc) = mode_select) by reflexivity.
  assert (H2 : filter (fun el => includes (selectedIds (state eHandleDoc)) (el_id el))
                 (elements (state eHandleDoc)) <> []) by (vm_compute; discriminate).
  assert (H3 : NoDup (map el_id (elements (state eHandleDoc))))
    by (vm_compute; repeat constructor; intros []).
  assert (H4 : Forall (fun e => 0 <= el_width e /\ 0 <= el_height e) (elements (state eHandleDoc)))
    by (vm_compute; repeat constructor; discriminate).
  assert (H5 : [mkPoint 25 3; mkPoint 0 0] <> []) by discriminate.
  assert (H6 : px (last [mkPoint 25 3; mkPoint 0 0] (mkPoint 0 0)) == px (mkPoint 0 0))
    by reflexivity.
  assert (H7 : py (last [mkPoint 25 3; mkPoint 0 0] (mkPoint 0 0)) == py (mkPoint 0 0))
    by reflexivity.
  split; [exact H1|].
  exact (proj1 (resize_back_to_start eHandleDoc dir_e (mkPoint 0 0) _ H1 H2 H3 H4 H5 H6 H7)).
Defined.

(** [drag_gesture]: a plain click on A, dragged by (5,5). *)
Lemma drag_gesture_witness :
  interactionMode (state groupDoc) = mode_select
  /\ nth_error (elements (state groupDoc)) 0 = Some (rectEl "A" 10 10 20 20)
  /\ selectedIds (state (runOp groupDoc (OpClick 0 false (mkPoint 0 0) [mkPoint 5 5])))
     = selectedIds (state (fst (handleElementPointerDown groupDoc "A" false (mkPoint 0 0)))).
Proof.
  assert (H1 : interactionMode (state groupDoc) = mode_select) by reflexivity.
  assert (H2 : nth_error (elements (state groupDoc)) 0 = Some (rectEl "A" 10 10 20 20))
    by reflexivity.
  assert (H3 : NoDup (map el_id (elements (state groupDoc))))
    by (vm_compute; repeat constructor; [intros [E|[]]; discriminate|intros []]).
  split; [exact H1|]. split; [exact H2|].
  exact (proj1 (drag_gesture groupDoc 0 false (mkPoint 0 0) [mkPoint 5 5] _ H1 H2 H3)).
Defined.

(** [marquee_unpanned_view] with a half-unit stroke pad, from (0,0) to (50,40):
    A overlaps the dragged rectangle; B only touches its edge and is selected
    through the pad. *)
Lemma marquee_unpanned_view_witness :
  zoom (state groupDoc) == 1
  /\ In "B"%string (selectedIds (state (marqueeRelease groupDoc (1#2) (mkPoint 0 0) (mkPoint 50 40))))
  /\ In "A"%string (selectedIds (state (marqueeRelease groupDoc (1#2) (mkPoint 0 0) (mkPoint 50 40)))).
Proof.
  assert (H1 : zoom (state groupDoc) == 1) by reflexivity.
  assert (H2 : px (pan (state groupDoc)) == 0) by reflexivity.
  assert (H3 : py (pan (state groupDoc)) == 0) by reflexivity.
  assert (H4 : 0 <= 1#2) by (vm_compute; discriminate).
  split; [exact H1|]. split; [vm_compute; right; left; reflexivity|].
  apply (proj1 (marquee_unpanned_view groupDoc (1#2) (mkPoint 0 0) (mkPoint 50 40) H1 H2 H3 H4)
                (rectEl "A" 10 10 20 20)).
  - left; reflexivity.
  - vm_compute. reflexivity.
Defined.

(** [selection_stays_live]: two additions, an additive click and a drag, a grouping. *)
Lemma selection_stays_live_witness :
  incl (selectedIds (state initialProvider)) (map el_id (elements (state initialProvider)))
  /\ incl (selectedIds (state (runOps initialProvider
                                 [OpAddShape rectangle; OpAddText None;
                                  OpClick 0 true (mkPoint 0 0) [mkPoint 5 5]; OpGroup])))
          (map el_id (elements (state (runOps initialProvider
                                 [OpAddShape rectangle; OpAddText None;
                                  OpClick 0 true (mkPoint 0 0) [mkPoint 5 5]; OpGroup])))).
Proof.
  assert (H1 : incl (selectedIds (state initialProvider))
                 (map el_id (elements (state initialProvider)))) by (intros a []).
  split; [exact H1|].
  apply (selection_stays_live initialProvider _ H1). repeat constructor.
Defined.
